(** * The patch engine of the Sawachi bot

    A shallow embedding of [src/patchEngine.js] (tokenizer, argument
    splitter, operation registry, script parser, confirmation code,
    executor, the helpers of the handlers and the summary of a plan), of
    the [patch] command of [src/index.js] (plan, apply and cancel over the
    store of pending patches) and of [src/commandParser.js], followed by
    the properties proved about them.

    Modelling conventions.
    - A JavaScript string is a [string]: every character stands for one
      code unit.  The whitespace class and the case mapping are those of
      the ASCII range, which is where the script syntax, the mapping source
      and the confirmation codes live.
    - A [Map] and a plain object used as a dictionary are a [gmap] with
      string keys.  Keys are ordinary names: the members an object inherits
      from [Object.prototype] are outside the model.
    - [Date.now()], the random bytes of the confirmation code, the content
      of the files read or fetched and the environment are explicit
      arguments.
    - The Discord guild is an abstract state threaded through the handlers;
      a handler either returns its descriptor or throws. *)

From Stdlib Require Import ZArith Ascii String List Lia.
From Stdlib Require Import Strings.Byte.
From Stdlib Require Import Sorting.Sorted Sorting.Permutation.
From stdpp Require Import gmap strings list.

Local Open Scope Z_scope.
Local Open Scope nat_scope.

(* ===================================================================== *)
(** * Strings as JavaScript uses them *)
(* ===================================================================== *)

Module JsString.

Definition LF : ascii := ascii_of_nat 10.
Definition CR : ascii := ascii_of_nat 13.
Definition dquote : ascii := ascii_of_nat 34.
Definition squote : ascii := ascii_of_nat 39.

(** The class [\s] of a regular expression, also what [trim] strips:
    TAB, LF, VT, FF, CR and the space. *)
Definition isWhiteSpace (c : ascii) : bool :=
  let n := nat_of_ascii c in
  ((9 <=? n) && (n <=? 13)) || (n =? 32).

Definition isEmpty (s : string) : bool :=
  match s with EmptyString => true | String _ _ => false end.

(** [Boolean(s)] on a string: the empty string is the only falsy one. *)
Definition truthy (s : string) : bool := negb (isEmpty s).

Fixpoint trimStart (s : string) : string :=
  match s with
  | EmptyString => EmptyString
  | String c r => if isWhiteSpace c then trimStart r else s
  end.

Fixpoint trimEnd (s : string) : string :=
  match s with
  | EmptyString => EmptyString
  | String c r =>
      let r' := trimEnd r in
      if isWhiteSpace c && isEmpty r' then EmptyString else String c r'
  end.

(** [s.trim()] *)
Definition trim (s : string) : string := trimEnd (trimStart s).

(** [s.startsWith(c)] for a one-character needle. *)
Definition startsWith (c : ascii) (s : string) : bool :=
  match s with
  | EmptyString => false
  | String d _ => Ascii.eqb d c
  end.

(** Puts a character in front of the first piece of a split in progress. *)
Definition pushHead (c : ascii) (parts : list string) : list string :=
  match parts with
  | [] => [String c EmptyString]
  | h :: t => String c h :: t
  end.

(** [s.split(sep)] for a one-character separator: never empty, one piece
    more than there are separators. *)
Fixpoint split (sep : ascii) (s : string) : list string :=
  match s with
  | EmptyString => [EmptyString]
  | String c r =>
      if Ascii.eqb c sep then EmptyString :: split sep r
      else pushHead c (split sep r)
  end.

(** [s.split(/\r?\n/)]: a line feed, with the carriage return before it
    when there is one, separates two lines. *)
Fixpoint splitLines (s : string) : list string :=
  match s with
  | EmptyString => [EmptyString]
  | String c r =>
      if Ascii.eqb c LF then EmptyString :: splitLines r
      else
        match r with
        | String c2 r' =>
            if Ascii.eqb c CR && Ascii.eqb c2 LF
            then EmptyString :: splitLines r'
            else pushHead c (splitLines r)
        | EmptyString => pushHead c (splitLines r)
        end
  end.

(** [s.indexOf(c)], [None] for the -1 of JavaScript. *)
Fixpoint indexOf (c : ascii) (s : string) : option nat :=
  match s with
  | EmptyString => None
  | String d r =>
      if Ascii.eqb d c then Some 0
      else match indexOf c r with
           | Some i => Some (S i)
           | None => None
           end
  end.

(** [s.includes(c)] *)
Definition includes (c : ascii) (s : string) : bool :=
  match indexOf c s with Some _ => true | None => false end.

(** [s.slice(0, n)] and [s.slice(n)] for [0 <= n]. *)
Fixpoint sliceTo (n : nat) (s : string) : string :=
  match n, s with
  | S k, String c r => String c (sliceTo k r)
  | _, _ => EmptyString
  end.

Fixpoint sliceFrom (n : nat) (s : string) : string :=
  match n, s with
  | S k, String _ r => sliceFrom k r
  | _, _ => s
  end.

Definition upperChar (c : ascii) : ascii :=
  let n := nat_of_ascii c in
  if (97 <=? n) && (n <=? 122) then ascii_of_nat (n - 32) else c.

Definition lowerChar (c : ascii) : ascii :=
  let n := nat_of_ascii c in
  if (65 <=? n) && (n <=? 90) then ascii_of_nat (n + 32) else c.

Fixpoint mapChars (f : ascii -> ascii) (s : string) : string :=
  match s with
  | EmptyString => EmptyString
  | String c r => String (f c) (mapChars f r)
  end.

(** [s.toUpperCase()] and [s.toLowerCase()] *)
Definition toUpperCase : string -> string := mapChars upperChar.
Definition toLowerCase : string -> string := mapChars lowerChar.

Fixpoint allChars (p : ascii -> bool) (s : string) : bool :=
  match s with
  | EmptyString => true
  | String c r => p c && allChars p r
  end.

Definition isDigit (c : ascii) : bool :=
  let n := nat_of_ascii c in (48 <=? n) && (n <=? 57).

(** A digit or one of [A..F]: what an upper-cased hexadecimal dump is
    made of. *)
Definition isUpperHex (c : ascii) : bool :=
  let n := nat_of_ascii c in
  isDigit c || ((65 <=? n) && (n <=? 70)).

End JsString.

Import JsString.

(* ===================================================================== *)
(** * patchEngine.js *)
(* ===================================================================== *)

Module PatchEngine.

(** ** tokenize *)

(** After an opening quote [q]: the body [[^q]*] and the closing quote.
    Gives the body and what follows the closing quote, or [None] when the
    quote is never closed. *)
Fixpoint closeQuote (q : ascii) (s : string) : option (string * string) :=
  match s with
  | EmptyString => None
  | String c r =>
      if Ascii.eqb c q then Some (EmptyString, r)
      else match closeQuote q r with
           | Some (body, rest) => Some (String c body, rest)
           | None => None
           end
  end.

(** The greedy run [[^\s]+] and what follows it. *)
Fixpoint nonSpaceRun (s : string) : string * string :=
  match s with
  | EmptyString => (EmptyString, EmptyString)
  | String c r =>
      if isWhiteSpace c then (EmptyString, s)
      else let (w, rest) := nonSpaceRun r in (String c w, rest)
  end.

(** One attempt of the pattern at the head of [s], its three alternatives
    tried in order: a span in double quotes, a span in single quotes, a
    run of characters that are not whitespace.  The token is
    [m[1] ?? m[2] ?? m[0]]: the body of the quoted span, or the whole
    run. *)
Definition matchAt (s : string) : option (string * string) :=
  match s with
  | EmptyString => None
  | String c r =>
      match (if Ascii.eqb c dquote then closeQuote dquote r else None) with
      | Some m => Some m
      | None =>
          match (if Ascii.eqb c squote then closeQuote squote r else None) with
          | Some m => Some m
          | None => if isWhiteSpace c then None else Some (nonSpaceRun s)
          end
      end
  end.

(** [re.exec(line)] from the current [lastIndex]: the leftmost position
    where the pattern matches.  [s] is the text from [lastIndex] on; the
    result is the token and the text from the new [lastIndex] on. *)
Fixpoint exec (s : string) : option (string * string) :=
  match s with
  | EmptyString => None
  | String _ r =>
      match matchAt s with
      | Some m => Some m
      | None => exec r
      end
  end.

(** The [while ((m = re.exec(line)) !== null)] loop.  Every match is at
    least one character long, so the length of the text bounds the number
    of rounds ([tokenizeLoop_fuel] below). *)
Fixpoint tokenizeLoop (fuel : nat) (s : string) : list string :=
  match fuel with
  | 0 => []
  | S f =>
      match exec s with
      | None => []
      | Some (tok, rest) => tok :: tokenizeLoop f rest
      end
  end.

Definition tokenize (line : string) : list string :=
  tokenizeLoop (S (String.length line)) line.

(** [tokens.slice(n)] *)
Definition sliceList {A : Type} (n : nat) (l : list A) : list A := skipn n l.

(** ** parseKeyValue *)

Record KeyValue := mkKeyValue {
  named : gmap string string;
  positional : list string;
}.

Definition parseKeyValueStep (acc : KeyValue) (t : string) : KeyValue :=
  match indexOf "=" t with
  | Some (S e) =>
      let eq := S e in
      let k := trim (sliceTo eq t) in
      let v := trim (sliceFrom (eq + 1) t) in
      mkKeyValue (<[k := v]> (named acc)) (positional acc)
  | _ => mkKeyValue (named acc) (positional acc ++ [t])
  end.

Definition parseKeyValue (tokens : list string) : KeyValue :=
  fold_left parseKeyValueStep tokens (mkKeyValue ∅ []).

(** ** loadOpsMap and resolveOp *)

Record OpEntry := mkOpEntry {
  op_handler : string;
  op_params : list string;
  op_line : nat;
}.

(** [`${x}`] for a destructured array element that may be missing. *)
Definition template (x : option string) : string :=
  match x with Some s => s | None => "undefined" end.

(** The body of the loop of [loadOpsMap] on line number [i] (from 0). *)
Definition loadOpsLine (map : gmap string OpEntry) (i : nat) (rawLine : string)
  : gmap string OpEntry :=
  let ln := trim rawLine in
  if isEmpty ln || startsWith "#" ln then map
  else
    let sides := List.map trim (split "=" ln) in
    match sides with
    | lhs :: rhs :: _ =>
        if isEmpty lhs || isEmpty rhs then map
        else
          let lparts := List.map trim (split ":" lhs) in
          let rparts := List.map trim (split ":" rhs) in
          let verb := nth_error lparts 0 in
          let type := nth_error lparts 1 in
          let handler := nth 0 rparts EmptyString in
          let params :=
            match nth_error rparts 1 with
            | Some paramsRaw =>
                if truthy paramsRaw
                then List.filter truthy (List.map trim (split "," paramsRaw))
                else []
            | None => []
            end in
          <[ template verb +:+ ":" +:+ template type
             := mkOpEntry handler params (i + 1) ]> map
    | _ => map
    end.

Fixpoint loadOpsLines (map : gmap string OpEntry) (i : nat) (lines : list string)
  : gmap string OpEntry :=
  match lines with
  | [] => map
  | l :: rest => loadOpsLines (loadOpsLine map i l) (S i) rest
  end.

(** [loadOpsMap(opsPath)], on the content of the file. *)
Definition loadOpsMap (raw : string) : gmap string OpEntry :=
  loadOpsLines ∅ 0 (splitLines raw).

Definition resolveOp (opsMap : gmap string OpEntry) (verb type : string)
  : option OpEntry :=
  match opsMap !! (verb +:+ ":" +:+ type) with
  | Some exact => Some exact
  | None => opsMap !! (verb +:+ ":*")
  end.

(** ** makeConfirmCode *)

(** One digit of [toString('hex')]: lower case. *)
Definition hexDigit (d : nat) : ascii :=
  if d <? 10 then ascii_of_nat (48 + d) else ascii_of_nat (87 + d).

Definition hexByte (b : byte) : string :=
  let n := Byte.to_nat b in
  String (hexDigit (n / 16)) (String (hexDigit (n mod 16)) EmptyString).

(** [crypto.randomBytes(3).toString('hex').toUpperCase()], on the three
    bytes drawn. *)
Definition makeConfirmCode (rnd : byte * byte * byte) : string :=
  let '(b0, b1, b2) := rnd in
  toUpperCase (hexByte b0 +:+ hexByte b1 +:+ hexByte b2).

(** ** parsePatchScript *)

Record Action := mkAction {
  a_verb : string;
  a_type : string;
  a_handler : string;
  a_args : gmap string string;
  a_line : nat;
  a_raw : string;
}.

(** The messages pushed on [errors], by their shape:
    - [FormatInvalid n]: line n, invalid format (verb + type required);
    - [UnknownOp n verb type]: line n, unknown operation verb:type;
    - [TooManyActions max]: too many actions (> max). *)
Inductive Diag :=
| FormatInvalid (line : nat)
| UnknownOp (line : nat) (verb type : string)
| TooManyActions (maxActions : Z).

Definition isOverflow (d : Diag) : bool :=
  match d with TooManyActions _ => true | _ => false end.

Record ParseResult := mkParseResult {
  actions : list Action;
  errors : list Diag;
  warnings : list string;
}.

(** One round of [for (const p of op.params)]: the named value, else the
    next positional one, else the empty string. *)
Definition bindParam (named : gmap string string)
    (st : gmap string string * list string) (p : string)
  : gmap string string * list string :=
  let (args, positional) := st in
  match named !! p with
  | Some v => (<[p := v]> args, positional)
  | None =>
      match positional with
      | v :: rest => (<[p := v]> args, rest)
      | [] => (<[p := EmptyString]> args, positional)
      end
  end.

Definition bindParams (params : list string) (kv : KeyValue) : gmap string string :=
  fst (fold_left (bindParam (named kv)) params (∅, positional kv)).

(** What one round of the loop over the lines does with line [i]
    (counted from 0): [continue] with nothing, [continue] after a
    diagnostic, or an action pushed. *)
Inductive LineOutcome :=
| Skipped
| Rejected (d : Diag)
| Emitted (a : Action).

Definition parseLine (opsMap : gmap string OpEntry) (i : nat) (raw : string)
  : LineOutcome :=
  let line := trim raw in
  if isEmpty line || startsWith "#" line then Skipped
  else
    let tokens := tokenize line in
    match tokens with
    | tok0 :: tok1 :: _ =>
        let '(verb, type, restIndex) :=
          if includes ":" tok0 then
            let parts := split ":" tok0 in
            let v := nth 0 parts EmptyString in
            let t := nth 1 parts EmptyString in
            (v, (if truthy t then t else tok1), 1)
          else (tok0, tok1, 2) in
        match resolveOp opsMap verb type with
        | None => Rejected (UnknownOp (i + 1) verb type)
        | Some op =>
            let rest := sliceList restIndex tokens in
            Emitted (mkAction verb type (op_handler op)
                       (bindParams (op_params op) (parseKeyValue rest))
                       (i + 1) raw)
        end
    | _ => Rejected (FormatInvalid (i + 1))
    end.

(** The loop over the lines from index [i] on, with the [break] of the
    overflow test. *)
Fixpoint parseLoop (opsMap : gmap string OpEntry) (maxActions : Z)
    (i : nat) (lines : list string) (actions : list Action) (errors : list Diag)
  : list Action * list Diag :=
  match lines with
  | [] => (actions, errors)
  | raw :: rest =>
      match parseLine opsMap i raw with
      | Skipped => parseLoop opsMap maxActions (S i) rest actions errors
      | Rejected d => parseLoop opsMap maxActions (S i) rest actions (errors ++ [d])
      | Emitted a =>
          let actions' := actions ++ [a] in
          if (Z.of_nat (length actions') >? maxActions)%Z
          then (actions', errors ++ [TooManyActions maxActions])
          else parseLoop opsMap maxActions (S i) rest actions' errors
      end
  end.

(** [parsePatchScript(scriptText, opsMap, opts)]; [opts] is the value of
    [opts.maxActions] when it is given, an integer. *)
Definition parsePatchScript (scriptText : string) (opsMap : gmap string OpEntry)
    (opts : option Z) : ParseResult :=
  let maxActions := match opts with Some m => m | None => 500%Z end in
  let (actions, errors) :=
    parseLoop opsMap maxActions 0 (splitLines scriptText) [] [] in
  mkParseResult actions errors [].

(** ** Handlers and applyActions *)

Record Ctx := mkCtx { reason : string }.

(** A thrown value, by the two things the executor reads of it:
    [e?.message] (empty when there is none) and [String(e)]. *)
Record Thrown := mkThrown { message : string; asString : string }.

(** [e?.message || String(e)] *)
Definition errorText (e : Thrown) : string :=
  if truthy (message e) then message e else asString e.

(** What a handler returns: [{ ok: true, changed, targetId }], the last
    one optional. *)
Record Return := mkReturn { changed : bool; targetId : option string }.

(** An asynchronous handler, awaited: from the guild and the bound
    arguments to the guild afterwards and either a thrown value or a
    descriptor. *)
Definition Handler (Guild : Type) : Type :=
  Guild -> gmap string string -> Ctx -> Guild * (Thrown + Return).

Record ActionResult := mkResult {
  r_ok : bool;
  r_line : nat;
  r_handler : option string;
  r_error : option string;
  r_changed : option bool;
  r_targetId : option string;
}.

Section Executor.

Context {Guild : Type}.

(** [HANDLERS[name]]: the table of the handlers, [None] where the
    lookup is falsy. *)
Variable HANDLERS : string -> option (Handler Guild).

(** One round of [for (const a of actions)]. *)
Definition applyAction (guild : Guild) (a : Action) (ctx : Ctx)
  : ActionResult * Guild :=
  match HANDLERS (a_handler a) with
  | None =>
      (mkResult false (a_line a) None
         (Some ("handler inconnu: " +:+ a_handler a)) None None, guild)
  | Some fn =>
      match fn guild (a_args a) ctx with
      | (guild', inr r) =>
          (mkResult true (a_line a) (Some (a_handler a)) None
             (Some (changed r)) (targetId r), guild')
      | (guild', inl e) =>
          (mkResult false (a_line a) (Some (a_handler a))
             (Some (errorText e)) None None, guild')
      end
  end.

Fixpoint applyLoop (results : list ActionResult) (guild : Guild)
    (actions : list Action) (ctx : Ctx) : list ActionResult * Guild :=
  match actions with
  | [] => (results, guild)
  | a :: rest =>
      let (r, guild') := applyAction guild a ctx in
      applyLoop (results ++ [r]) guild' rest ctx
  end.

(** [applyActions(guild, actions, ctx)]: the results and the guild
    after the calls. *)
Definition applyActions (guild : Guild) (actions : list Action) (ctx : Ctx)
  : list ActionResult * Guild :=
  applyLoop [] guild actions ctx.

End Executor.

End PatchEngine.

Import PatchEngine.

(* ===================================================================== *)
(** * index.js: the [patch] command *)
(* ===================================================================== *)

Module Index.

Record PendingPatch := mkPending {
  code : string;
  p_actions : list Action;
  createdAt : Z;
  hasDeletes : bool;
}.

Definition PATCH_CONFIRM_TTL_MS : Z := 10 * 60 * 1000.

(** What the process reads of its environment once, at start:
    [PATCH_MAX_ACTIONS] (an integer, 500 when unset) and
    [PATCH_ALLOW_DELETES]. *)
Record Env := mkEnv {
  PATCH_MAX_ACTIONS : Z;
  PATCH_ALLOW_DELETES_DEFAULT : bool;
}.

(** What the command reads of the message: the id of its guild, the tag
    of its author and the text fetched from its first attachment, when
    it has one. *)
Record Message := mkMessage {
  guild_id : string;
  author_tag : string;
  attachment : option string;
}.

(** The replies of the command, by their kind; the wording and the
    layout of the embeds are not modelled, nor are the text of the
    exported template and of the summary of a plan. *)
Inductive Reply :=
| ReplyHelp
| ReplyTemplate
| ReplyCancelled
| ReplyNoAttachment
| ReplyInvalidPatch (shown : list Diag)
| ReplyPlan (code : string) (warnDeletes : bool)
| ReplyNoPending
| ReplyExpired
| ReplyInvalidCode
| ReplyDeleteBlocked
| ReplyApplyDone (ok ko : nat) (firstErrors : list ActionResult)
| ReplyUnknownSub.

(** [a.handler === 'channel.delete' || a.handler === 'role.delete'] *)
Definition isDelete (a : Action) : bool :=
  String.eqb (a_handler a) "channel.delete"
  || String.eqb (a_handler a) "role.delete".

Section Patch.

Context {Guild : Type}.
Variable HANDLERS : string -> option (Handler Guild).
Variable env : Env.

(** The sub-command [cancel]. *)
Definition patchCancel (message : Message)
    (pendingPatches : gmap string PendingPatch)
  : Reply * gmap string PendingPatch :=
  (ReplyCancelled, delete (guild_id message) pendingPatches).

(** The sub-command [plan], at time [now] and with the random bytes
    [rnd] for the code. *)
Definition patchPlan (opsMap : gmap string OpEntry) (now : Z)
    (rnd : byte * byte * byte) (message : Message)
    (pendingPatches : gmap string PendingPatch)
  : Reply * gmap string PendingPatch :=
  match attachment message with
  | None => (ReplyNoAttachment, pendingPatches)
  | Some text =>
      let res := parsePatchScript text opsMap (Some (PATCH_MAX_ACTIONS env)) in
      match errors res with
      | _ :: _ => (ReplyInvalidPatch (firstn 15 (errors res)), pendingPatches)
      | [] =>
          let hasDeletes := existsb isDelete (actions res) in
          let code' := makeConfirmCode rnd in
          (ReplyPlan code' hasDeletes,
           <[guild_id message := mkPending code' (actions res) now hasDeletes]>
             pendingPatches)
      end
  end.

(** [(args[1] || '').toUpperCase()]; [args] are the words of the
    command, the sub-command first. *)
Definition submittedCode (args : list string) : string :=
  toUpperCase (nth 1 args EmptyString).

(** [args.includes('--allow-deletes') || PATCH_ALLOW_DELETES_DEFAULT] *)
Definition allowDeletes (args : list string) : bool :=
  existsb (String.eqb "--allow-deletes") args
  || PATCH_ALLOW_DELETES_DEFAULT env.

(** The context handed to the executor. *)
Definition applyCtx (message : Message) : Ctx :=
  mkCtx ("Patch apply by " +:+ author_tag message).

(** The sub-command [apply], at time [now]. *)
Definition patchApply (now : Z) (message : Message) (args : list string)
    (pendingPatches : gmap string PendingPatch) (guild : Guild)
  : Reply * gmap string PendingPatch * Guild :=
  let code' := submittedCode args in
  let allowDeletes := allowDeletes args in
  match pendingPatches !! guild_id message with
  | None => (ReplyNoPending, pendingPatches, guild)
  | Some pending =>
      if (now - createdAt pending >? PATCH_CONFIRM_TTL_MS)%Z then
        (ReplyExpired, delete (guild_id message) pendingPatches, guild)
      else if negb (String.eqb (code pending) code') then
        (ReplyInvalidCode, pendingPatches, guild)
      else if hasDeletes pending && negb allowDeletes then
        (ReplyDeleteBlocked, pendingPatches, guild)
      else
        let (results, guild') :=
          applyActions HANDLERS guild (p_actions pending) (applyCtx message) in
        let ok := length (List.filter r_ok results) in
        let failed := List.filter (fun r => negb (r_ok r)) results in
        (ReplyApplyDone ok (length failed) (firstn 10 failed),
         delete (guild_id message) pendingPatches, guild')
  end.

(** The callback registered for [patch]. *)
Definition patchCommand (opsMap : gmap string OpEntry) (now : Z)
    (rnd : byte * byte * byte) (message : Message) (args : list string)
    (pendingPatches : gmap string PendingPatch) (guild : Guild)
  : Reply * gmap string PendingPatch * Guild :=
  let sub := toLowerCase (nth 0 args EmptyString) in
  if isEmpty sub || String.eqb sub "help" then
    (ReplyHelp, pendingPatches, guild)
  else if String.eqb sub "export" then
    (ReplyTemplate, pendingPatches, guild)
  else if String.eqb sub "cancel" then
    let (r, store) := patchCancel message pendingPatches in (r, store, guild)
  else if String.eqb sub "plan" then
    let (r, store) := patchPlan opsMap now rnd message pendingPatches in
    (r, store, guild)
  else if String.eqb sub "apply" then
    patchApply now message args pendingPatches guild
  else (ReplyUnknownSub, pendingPatches, guild).

End Patch.

(** A reply that tells the attempt went past the code gate: either the
    deletions were blocked, or the actions ran. *)
Definition pastCodeGate (r : Reply) : bool :=
  match r with
  | ReplyDeleteBlocked | ReplyApplyDone _ _ _ => true
  | _ => false
  end.

End Index.

Import Index.

(* ===================================================================== *)
(** * Fixtures: a registry, scripts and a guild double *)
(* ===================================================================== *)

Module Fixtures.

(** [s] between two double quotes. *)
Definition quoted (s : string) : string :=
  String dquote (s +:+ String dquote EmptyString).

Definition newline : string := String LF EmptyString.

Fixpoint joinLines (lines : list string) : string :=
  match lines with
  | [] => EmptyString
  | l :: rest => l +:+ newline +:+ joinLines rest
  end.

(** The registry of the examples: an exact entry and a wildcard. *)
Definition opsSource : string :=
  joinLines ["set:channel = handlerA:id,name"; "set:* = handlerB:id"].

Definition registry : gmap string OpEntry := loadOpsMap opsSource.

(** A comment, a valid line with a quoted named argument, an unknown
    operation. *)
Definition loungeLine : string :=
  "set channel 111111111111111111 name=" +:+ quoted "Lounge".

Definition loungeScript : string :=
  joinLines ["# note"; loungeLine; "bogus thing"].

(** A guild reduced to the names of its channels, by id.  It stands for
    the Discord client in the examples: a lookup reaches every channel
    of the table and a call on an existing channel succeeds. *)
Definition GuildDouble : Type := gmap string string.

(** [SNOWFLAKE_RE.test(id)]: 17 to 20 digits; a missing argument is
    tested as the text [undefined]. *)
Definition SNOWFLAKE_RE_test (id : option string) : bool :=
  let s := template id in
  allChars isDigit s && (17 <=? String.length s) && (String.length s <=? 20).

Definition throw (msg : string) : Thrown + Return :=
  inl (mkThrown msg ("Error: " +:+ msg)).

Definition handlerNoop : Handler GuildDouble :=
  fun guild _ _ => (guild, inr (mkReturn false None)).

Definition handlerChannelRename : Handler GuildDouble :=
  fun guild args _ =>
    let id := args !! "id" in
    let name := args !! "name" in
    if negb (SNOWFLAKE_RE_test id) then (guild, throw "id invalide")
    else
      match name with
      | Some (String c r) =>
          match guild !! template id with
          | Some _ =>
              (<[template id := String c r]> guild,
               inr (mkReturn true (Some (template id))))
          | None => (guild, throw ("salon introuvable: " +:+ template id))
          end
      | _ => (guild, throw "name vide")
      end.

Definition handlerChannelDelete : Handler GuildDouble :=
  fun guild args _ =>
    let id := args !! "id" in
    if negb (SNOWFLAKE_RE_test id) then (guild, throw "id invalide")
    else
      match guild !! template id with
      | Some _ =>
          (delete (template id) guild, inr (mkReturn true (Some (template id))))
      | None => (guild, throw ("salon introuvable: " +:+ template id))
      end.

(** The part of the table [HANDLERS] the examples use. *)
Definition HANDLERS (name : string) : option (Handler GuildDouble) :=
  if String.eqb name "noop" then Some handlerNoop
  else if String.eqb name "channel.rename" then Some handlerChannelRename
  else if String.eqb name "channel.delete" then Some handlerChannelDelete
  else None.

Definition lobby : string := "111111111111111111".

Definition guild0 : GuildDouble := {[ lobby := "general" ]}.

(** A registry over the handlers of the double. *)
Definition liveRegistry : gmap string OpEntry :=
  loadOpsMap (joinLines
    [ "keep:* = noop";
      "rename:channel = channel.rename:id,name";
      "delete:channel = channel.delete:id" ]).

Definition env0 : Env := mkEnv 500 false.

Definition msg (text : option string) : Message :=
  mkMessage "900000000000000001" "admin#0001" text.

(** Three actions, the second of which makes its handler throw. *)
Definition mixedScript : string :=
  joinLines
    [ "keep channel " +:+ lobby;
      "rename channel abc name=x";
      "rename channel " +:+ lobby +:+ " name=lounge" ].

(** Seven valid lines: five more than a limit of two. *)
Definition sevenLines : string :=
  joinLines (repeat ("set channel " +:+ lobby +:+ " name=x") 7).

(** The three actions [mixedScript] parses to. *)
Definition keepLobby : Action :=
  mkAction "keep" "channel" "noop" ∅ 1 ("keep channel " +:+ lobby).

Definition renameAbc : Action :=
  mkAction "rename" "channel" "channel.rename"
    (<["name" := "x"]> {[ "id" := "abc" ]}) 2 "rename channel abc name=x".

Definition renameLobby : Action :=
  mkAction "rename" "channel" "channel.rename"
    (<["name" := "lounge"]> {[ "id" := lobby ]}) 3
    ("rename channel " +:+ lobby +:+ " name=lounge").

Definition deleteScript : string := joinLines [ "delete channel " +:+ lobby ].

(** A store with one pending patch, planned at [t0]. *)
Definition t0 : Z := 1700000000000.

Definition minutes (n : Z) : Z := (n * 60 * 1000)%Z.

Definition pending0 : PendingPatch :=
  mkPending "A1B2C3" [keepLobby; renameAbc; renameLobby] t0 false.

Definition store0 : gmap string PendingPatch :=
  {[ guild_id (msg None) := pending0 ]}.

Definition someBytes : byte * byte * byte := (xa1, xb2, xc3).

End Fixtures.

Import Fixtures.

(* ===================================================================== *)
(** * The script read line by line, without the limit *)
(* ===================================================================== *)

Module Unlimited.

(** The actions the lines from index [i] on emit, one valid line after
    the other, when nothing stops the loop. *)
Fixpoint attempted (opsMap : gmap string OpEntry) (i : nat) (lines : list string)
  : list Action :=
  match lines with
  | [] => []
  | raw :: rest =>
      match parseLine opsMap i raw with
      | Emitted a => a :: attempted opsMap (S i) rest
      | _ => attempted opsMap (S i) rest
      end
  end.

(** The diagnostics of the lines that are rejected. *)
Fixpoint diagnostics (opsMap : gmap string OpEntry) (i : nat) (lines : list string)
  : list Diag :=
  match lines with
  | [] => []
  | raw :: rest =>
      match parseLine opsMap i raw with
      | Rejected d => d :: diagnostics opsMap (S i) rest
      | _ => diagnostics opsMap (S i) rest
      end
  end.

(** The number of lines of a script that are valid action lines. *)
Definition validLines (opsMap : gmap string OpEntry) (scriptText : string) : nat :=
  length (attempted opsMap 0 (splitLines scriptText)).

(** The overflow cap with the count the specification gives: as many
    actions as the limit, and one overflow diagnostic. *)
Definition capAtLimit (scriptText : string) (opsMap : gmap string OpEntry)
    (maxActions : Z) : Prop :=
  (maxActions < Z.of_nat (validLines opsMap scriptText))%Z ->
  let res := parsePatchScript scriptText opsMap (Some maxActions) in
  Z.of_nat (length (actions res)) = maxActions
  /\ length (List.filter isOverflow (errors res)) = 1.

End Unlimited.

Import Unlimited.

(* ===================================================================== *)
(** * Words, quoted spans and lines made of them *)
(* ===================================================================== *)

Module Words.

Definition notSpace (c : ascii) : bool := negb (isWhiteSpace c).

Definition notChar (x c : ascii) : bool := negb (Ascii.eqb c x).











(** A text that whitespace does not begin. *)
Definition startsClean (s : string) : bool :=
  match s with
  | EmptyString => true
  | String c _ => notSpace c
  end.

(** A text that whitespace does not end. *)
Fixpoint endsClean (s : string) : bool :=
  match s with
  | EmptyString => true
  | String c r =>
      match r with
      | EmptyString => notSpace c
      | String _ _ => endsClean r
      end
  end.

(** A line of text: it holds neither a line feed nor a carriage
    return. *)
Definition lineText (l : string) : bool :=
  allChars (fun c => notChar LF c && notChar CR c) l.

(** The lines one after the other, [sep] between two. *)
Fixpoint joinLinesWith (sep : string) (lines : list string) : string :=
  match lines with
  | [] => EmptyString
  | l :: rest =>
      match rest with
      | [] => l
      | _ :: _ => l +:+ sep +:+ joinLinesWith sep rest
      end
  end.

Definition LFs : string := String LF EmptyString.
Definition CRLFs : string := String CR (String LF EmptyString).

End Words.

Import Words.

(* ===================================================================== *)
(** * Entries of the mapping source, written out *)
(* ===================================================================== *)

Module Entries.








(** What a line of the mapping source declares, when it declares
    something: the key and the entry that [loadOpsMap] sets for the line
    of index [i]. *)
Definition entryOfLine (i : nat) (rawLine : string) : option (string * OpEntry) :=
  let ln := trim rawLine in
  if isEmpty ln || startsWith "#" ln then None
  else
    match List.map trim (split "=" ln) with
    | lhs :: rhs :: _ =>
        if isEmpty lhs || isEmpty rhs then None
        else
          let lparts := List.map trim (split ":" lhs) in
          let rparts := List.map trim (split ":" rhs) in
          Some (template (nth_error lparts 0) +:+ ":" +:+ template (nth_error lparts 1),
                mkOpEntry (nth 0 rparts EmptyString)
                  match nth_error rparts 1 with
                  | Some paramsRaw =>
                      if truthy paramsRaw
                      then List.filter truthy (List.map trim (split "," paramsRaw))
                      else []
                  | None => []
                  end
                  (i + 1))
    | _ => None
    end.


(** The value of an upper-case hexadecimal digit. *)
Definition hexValue (c : ascii) : option nat :=
  let n := nat_of_ascii c in
  if isDigit c then Some (n - 48)
  else if (65 <=? n) && (n <=? 70) then Some (n - 55)
  else None.

(** The byte two hexadecimal digits write. *)
Definition byteOfHex (hi lo : ascii) : option byte :=
  match hexValue hi, hexValue lo with
  | Some h, Some l => Byte.of_nat (16 * h + l)
  | _, _ => None
  end.

(** The three bytes a confirmation code writes. *)
Definition bytesOfCode (code : string) : option (byte * byte * byte) :=
  match code with
  | String a (String b (String c (String d (String e (String f EmptyString))))) =>
      match byteOfHex a b, byteOfHex c d, byteOfHex e f with
      | Some x, Some y, Some z => Some (x, y, z)
      | _, _, _ => None
      end
  | _ => None
  end.

End Entries.

Import Entries.

(* ===================================================================== *)
(** * patchEngine.js: the helpers of the handlers *)
(* ===================================================================== *)

Module Helpers.


Section Overwrite.

(** [p in PermissionsBitField.Flags]: the names of the permissions
    discord.js knows. *)
Variable isFlag : string -> bool.



End Overwrite.





End Helpers.

Import Helpers.

(* ===================================================================== *)
(** * patchEngine.js: the summary of a plan *)
(* ===================================================================== *)

Module Summary.

(** [counts[h] = (counts[h] || 0) + 1] on an object whose own keys are
    kept in the order of their creation. *)
Fixpoint bump (h : string) (counts : list (string * nat)) : list (string * nat) :=
  match counts with
  | [] => [(h, 1)]
  | (k, n) :: rest =>
      if String.eqb k h then (k, n + 1) :: rest else (k, n) :: bump h rest
  end.

(** The loop [for (const a of actions)] of [buildPlanSummary]. *)
Definition countHandlers (actions : list Action) : list (string * nat) :=
  fold_left (fun counts a => bump (a_handler a) counts) actions [].

Fixpoint digitsValue (acc : N) (s : string) : N :=
  match s with
  | EmptyString => acc
  | String c r => digitsValue (acc * 10 + (N_of_ascii c - 48))%N r
  end.

(** A key that is an array index: the canonical decimal writing of an
    integer from 0 to 2^32 - 2.  [Object.entries] lists these keys first,
    in increasing order. *)
Definition arrayIndex (k : string) : option N :=
  match k with
  | EmptyString => None
  | String c r =>
      if allChars isDigit k && (isEmpty r || negb (Ascii.eqb c "0")) then
        let v := digitsValue 0 k in
        if (v <? 4294967295)%N then Some v else None
      else None
  end.

(** A stable insertion sort: [x] goes before the first element that
    [before x] accepts, the elements sorted afterwards. *)
Fixpoint insertBy {A : Type} (before : A -> A -> bool) (x : A) (l : list A) : list A :=
  match l with
  | [] => [x]
  | y :: rest => if before x y then x :: y :: rest else y :: insertBy before x rest
  end.

Fixpoint sortBy {A : Type} (before : A -> A -> bool) (l : list A) : list A :=
  match l with
  | [] => []
  | x :: rest => insertBy before x (sortBy before rest)
  end.

Definition indexOfEntry (e : string * nat) : N :=
  match arrayIndex e.1 with Some v => v | None => 0%N end.

Definition isIndexEntry (e : string * nat) : bool :=
  match arrayIndex e.1 with Some _ => true | None => false end.

(** [Object.entries(counts)]: the array-index keys by increasing index,
    then the other keys in the order of their creation. *)
Definition objectEntries (counts : list (string * nat)) : list (string * nat) :=
  sortBy (fun x y => (indexOfEntry x <=? indexOfEntry y)%N)
    (List.filter isIndexEntry counts)
  ++ List.filter (fun e => negb (isIndexEntry e)) counts.

(** [.sort((a, b) => b[1] - a[1])]: by decreasing count, the sort being
    stable. *)
Definition byCountDescending (entries : list (string * nat)) : list (string * nat) :=
  sortBy (fun x y => y.2 <=? x.2) entries.

(** [buildPlanSummary(actions)], as the lines of the summary before they
    are written out: a handler and its count per line.  No line stands
    for the text that says there is no action. *)
Definition buildPlanSummary (actions : list Action) : list (string * nat) :=
  byCountDescending (objectEntries (countHandlers actions)).





End Summary.

Import Summary.

(* ===================================================================== *)
(** * commandParser.js *)
(* ===================================================================== *)

Module CommandParser.

(** [content.startsWith(prefix)] and what follows the prefix,
    [content.slice(prefix.length)]. *)
Fixpoint afterPrefix (prefix content : string) : option string :=
  match prefix with
  | EmptyString => Some content
  | String p prefix' =>
      match content with
      | String c content' =>
          if Ascii.eqb c p then afterPrefix prefix' content' else None
      | EmptyString => None
      end
  end.

(** [s.split(/\s+/)]: the pieces between the runs of whitespace;
    [inRun] tells that the character before was whitespace. *)
Fixpoint splitRuns (inRun : bool) (s : string) : list string :=
  match s with
  | EmptyString => [EmptyString]
  | String c r =>
      if isWhiteSpace c then
        if inRun then splitRuns true r else EmptyString :: splitRuns true r
      else pushHead c (splitRuns false r)
  end.

Definition splitWhitespace (s : string) : list string := splitRuns false s.

Record Parsed := mkParsed {
  command : string;
  args : list string;
  rawArgs : string;
}.

(** [parseCommandContent(content, prefix)] on a string [content];
    [None] is [null]. *)
Definition parseCommandContent (content prefix : string) : option Parsed :=
  match afterPrefix prefix content with
  | None => None
  | Some body =>
      let trimmedStart := trimStart body in
      if isEmpty trimmedStart then None
      else
        let (m1, m2) := nonSpaceRun trimmedStart in
        let command := toLowerCase m1 in
        let rawArgs := trimStart m2 in
        let args :=
          if truthy (trim rawArgs) then splitWhitespace (trim rawArgs) else [] in
        Some (mkParsed command args rawArgs)
  end.

(** A word of a command: not empty and without whitespace. *)
Definition commandWord (w : string) : bool := truthy w && allChars notSpace w.

End CommandParser.

Import CommandParser.

(* ===================================================================== *)
(** * Properties *)
(* ===================================================================== *)

(** ** Strings *)

Lemma upperChar_lowerChar (c : ascii) : upperChar (lowerChar c) = upperChar c.
Proof. destruct c as [[|] [|] [|] [|] [|] [|] [|] [|]]; reflexivity. Qed.

Lemma upperChar_upperHex (c : ascii) : isUpperHex c = true -> upperChar c = c.
Proof.
  destruct c as [[|] [|] [|] [|] [|] [|] [|] [|]]; intros H;
    first [reflexivity | discriminate H].
Qed.

Lemma toUpperCase_toLowerCase (s : string) :
  toUpperCase (toLowerCase s) = toUpperCase s.
Proof.
  induction s as [|c s IH]; [reflexivity|].
  cbn. rewrite upperChar_lowerChar. f_equal. exact IH.
Qed.

Lemma toUpperCase_upperHex (s : string) :
  allChars isUpperHex s = true -> toUpperCase s = s.
Proof.
  induction s as [|c s IH]; [reflexivity|].
  cbn. intros [Hc Hs]%andb_prop.
  rewrite (upperChar_upperHex c Hc). f_equal. exact (IH Hs).
Qed.

Lemma allChars_append (p : ascii -> bool) (s t : string) :
  allChars p (s +:+ t) = allChars p s && allChars p t.
Proof.
  induction s as [|c s IH]; [reflexivity|].
  simpl. rewrite IH. apply andb_assoc.
Qed.

Lemma mapChars_append (f : ascii -> ascii) (s t : string) :
  mapChars f (s +:+ t) = mapChars f s +:+ mapChars f t.
Proof. induction s as [|c s IH]; [reflexivity|]. simpl. by rewrite IH. Qed.

Lemma split_no_separator (sep : ascii) (s : string) :
  indexOf sep s = None -> split sep s = [s].
Proof.
  induction s as [|c s IH]; [reflexivity|].
  cbn. destruct (Ascii.eqb c sep); [discriminate|].
  destruct (indexOf sep s); [discriminate|].
  intros _. by rewrite IH.
Qed.

(** ** The tokenizer terminates within its fuel *)







(** ** The registry loader *)

(** A line without [=] adds nothing to the table. *)
Lemma loadOpsLine_no_equals (map : gmap string OpEntry) (i : nat) (rawLine : string) :
  indexOf "=" (trim rawLine) = None -> loadOpsLine map i rawLine = map.
Proof.
  intros H. unfold loadOpsLine.
  destruct (isEmpty (trim rawLine) || startsWith "#" (trim rawLine)); [reflexivity|].
  by rewrite (split_no_separator _ _ H).
Qed.

(** A line with nothing on a side of its [=], or with no [=], is skipped. *)
Lemma loadOpsMap_skips_missing_sides :
  loadOpsMap "set:channel =" = ∅
  /\ loadOpsMap "= handlerA:id" = ∅
  /\ loadOpsMap "set:channel handlerA:id" = ∅.
Proof. repeat split; vm_compute; reflexivity. Qed.

(** C7 (the code at the failing inputs): an entry line that lacks its
    resource type, its verb or its handler is not skipped by [loadOpsMap];
    each of the four lines below leaves an entry in the table, the first
    one under a key made of the text [undefined]. *)
Theorem loadOpsMap_keeps_malformed_entries :
  loadOpsMap "set = handlerA:id" !! "set:undefined"
    = Some (mkOpEntry "handlerA" ["id"] 1)
  /\ loadOpsMap "set: = handlerA:id" !! "set:"
    = Some (mkOpEntry "handlerA" ["id"] 1)
  /\ loadOpsMap ":channel = handlerA:id" !! ":channel"
    = Some (mkOpEntry "handlerA" ["id"] 1)
  /\ loadOpsMap "set:channel = :id" !! "set:channel"
    = Some (mkOpEntry EmptyString ["id"] 1).
Proof. repeat split; vm_compute; reflexivity. Qed.

(** ** The parser on the examples *)

(** A line of one token is a format error, whatever the token. *)
Lemma parseLine_single_token (opsMap : gmap string OpEntry) (i : nat) (raw tok : string) :
  isEmpty (trim raw) || startsWith "#" (trim raw) = false ->
  tokenize (trim raw) = [tok] ->
  parseLine opsMap i raw = Rejected (FormatInvalid (i + 1)).
Proof. intros Hc Ht. unfold parseLine. by rewrite Hc, Ht. Qed.

(** C8 (the code at the failing input): on the script of the example the
    parser gives one action and one diagnostic for line 3, but the value
    bound to [name] is the text with its two quote characters, not
    [Lounge]: a quote that does not begin a token is an ordinary
    character. *)
Theorem lounge_script_keeps_the_quotes :
  parsePatchScript loungeScript registry (Some 10%Z)
  = mkParseResult
      [ mkAction "set" "channel" "handlerA"
          (<["name" := quoted "Lounge"]> {[ "id" := "111111111111111111" ]})
          2 loungeLine ]
      [ UnknownOp 3 "bogus" "thing" ]
      []
  /\ quoted "Lounge" <> "Lounge".
Proof. split; [vm_compute; reflexivity | discriminate]. Qed.

(** C9 (the code at the failing input): [set:channel] resolves in the
    registry, yet the line made of that single token is rejected as a
    format error and gives no action; the same operation written in two
    tokens and without argument gives an action whose parameters are
    bound to the empty string. *)
Theorem colon_shorthand_alone_is_rejected :
  resolveOp registry "set" "channel"
    = Some (mkOpEntry "handlerA" ["id"; "name"] 1)
  /\ parsePatchScript "set:channel" registry (Some 10%Z)
    = mkParseResult [] [FormatInvalid 1] []
  /\ parsePatchScript "set channel" registry (Some 10%Z)
    = mkParseResult
        [ mkAction "set" "channel" "handlerA"
            (<["name" := EmptyString]> {[ "id" := EmptyString ]})
            1 "set channel" ]
        [] [].
Proof. repeat split; vm_compute; reflexivity. Qed.

(** With an argument after it the shorthand is read: one token less is
    taken for the operation. *)
Lemma colon_shorthand_with_argument :
  parsePatchScript "set:channel 42" registry (Some 10%Z)
  = mkParseResult
      [ mkAction "set" "channel" "handlerA"
          (<["name" := EmptyString]> {[ "id" := "42" ]})
          1 "set:channel 42" ]
      [] [].
Proof. vm_compute; reflexivity. Qed.

(** ** The limit on the number of actions *)

Lemma parseLine_not_overflow (opsMap : gmap string OpEntry) (i : nat) (raw : string) (d : Diag) :
  parseLine opsMap i raw = Rejected d -> isOverflow d = false.
Proof.
  unfold parseLine.
  destruct (isEmpty (trim raw) || startsWith "#" (trim raw)); [discriminate|].
  destruct (tokenize (trim raw)) as [|tok0 [|tok1 toks]];
    try (intros [= <-]; reflexivity).
  destruct (if includes ":" tok0 then _ else _) as [[verb type] restIndex].
  destruct (resolveOp opsMap verb type); [discriminate|].
  intros [= <-]. reflexivity.
Qed.

Lemma diagnostics_no_overflow (opsMap : gmap string OpEntry) (lines : list string) (i : nat) :
  List.filter isOverflow (diagnostics opsMap i lines) = [].
Proof.
  revert i. induction lines as [|raw rest IH]; intros i; [reflexivity|].
  cbn [diagnostics]. destruct (parseLine opsMap i raw) as [|d|a] eqn:Hl; try apply IH.
  cbn [List.filter]. rewrite (parseLine_not_overflow _ _ _ _ Hl). apply IH.
Qed.

Lemma attempted_app (opsMap : gmap string OpEntry) (l1 l2 : list string) (i : nat) :
  attempted opsMap i (l1 ++ l2)
  = attempted opsMap i l1 ++ attempted opsMap (i + length l1) l2.
Proof.
  revert i. induction l1 as [|raw rest IH]; intros i.
  - cbn. by rewrite Nat.add_0_r.
  - cbn [app attempted length]. rewrite IH.
    replace (S i + length rest) with (i + S (length rest)) by lia.
    by destruct (parseLine opsMap i raw).
Qed.

(** The loop, entered with [acc_a] and [acc_e], when the lines still hold
    enough valid ones to pass the limit: it stops on the valid line that
    makes the count exceed [maxActions], and what follows that line is
    never read. *)
Lemma parseLoop_overflow (opsMap : gmap string OpEntry) (maxActions : Z)
    (lines : list string) :
  forall (i : nat) (acc_a : list Action) (acc_e : list Diag),
    Z.to_nat (Z.max 1 (maxActions + 1 - Z.of_nat (length acc_a)))
      <= length (attempted opsMap i lines) ->
    exists consumed ignored : list string,
      lines = consumed ++ ignored
      /\ length (attempted opsMap i consumed)
         = Z.to_nat (Z.max 1 (maxActions + 1 - Z.of_nat (length acc_a)))
      /\ forall other : list string,
           parseLoop opsMap maxActions i (consumed ++ other) acc_a acc_e
           = (acc_a ++ attempted opsMap i consumed,
              acc_e ++ diagnostics opsMap i consumed ++ [TooManyActions maxActions]).
Proof.
  induction lines as [|raw rest IH]; intros i acc_a acc_e Hneed.
  { cbn in Hneed. lia. }
  cbn [attempted] in Hneed.
  destruct (parseLine opsMap i raw) as [|d|a] eqn:Hl.
  - destruct (IH (S i) acc_a acc_e Hneed) as (c & g & -> & Hlen & Hrun).
    exists (raw :: c), g. cbn [app attempted diagnostics parseLoop].
    rewrite Hl. repeat split; [exact Hlen | exact Hrun].
  - destruct (IH (S i) acc_a (acc_e ++ [d]) Hneed) as (c & g & -> & Hlen & Hrun).
    exists (raw :: c), g. cbn [app attempted diagnostics parseLoop].
    rewrite Hl. repeat split; [exact Hlen|].
    intros other. rewrite Hrun. by rewrite <- !app_assoc.
  - destruct (Z.of_nat (length (acc_a ++ [a])) >? maxActions)%Z eqn:Hover.
    + exists [raw], rest. cbn [app attempted diagnostics parseLoop].
      rewrite Hl, Hover. repeat split.
      apply Z.gtb_lt in Hover. rewrite length_app in Hover. cbn in *. lia.
    + assert (Hle : (Z.of_nat (length acc_a) + 1 <= maxActions)%Z).
      { destruct (Z.gtb_spec (Z.of_nat (length (acc_a ++ [a]))) maxActions) as [|Hle];
          [discriminate|].
        rewrite length_app in Hle. cbn in Hle. lia. }
      destruct (IH (S i) (acc_a ++ [a]) acc_e) as (c & g & -> & Hlen & Hrun).
      { rewrite length_app. cbn in *. lia. }
      exists (raw :: c), g. cbn [app attempted diagnostics parseLoop].
      rewrite Hl, Hover. repeat split.
      * rewrite length_app in Hlen. cbn in *. lia.
      * intros other. rewrite Hrun. by rewrite <- app_assoc.
Qed.

(** Within the limit nothing stops the loop: every valid line gives its
    action and there is no overflow diagnostic. *)
Lemma parseLoop_within_limit (opsMap : gmap string OpEntry) (maxActions : Z)
    (lines : list string) :
  forall (i : nat) (acc_a : list Action) (acc_e : list Diag),
    (Z.of_nat (length acc_a + length (attempted opsMap i lines)) <= maxActions)%Z ->
    parseLoop opsMap maxActions i lines acc_a acc_e
    = (acc_a ++ attempted opsMap i lines, acc_e ++ diagnostics opsMap i lines).
Proof.
  induction lines as [|raw rest IH]; intros i acc_a acc_e Hfit.
  { cbn. by rewrite !app_nil_r. }
  cbn [attempted diagnostics parseLoop] in *.
  destruct (parseLine opsMap i raw) as [|d|a] eqn:Hl.
  - by apply IH.
  - rewrite IH by exact Hfit. by rewrite <- app_assoc.
  - cbn [length] in Hfit.
    destruct (Z.gtb_spec (Z.of_nat (length (acc_a ++ [a]))) maxActions) as [Hgt|_].
    { rewrite length_app in Hgt. cbn in Hgt. lia. }
    rewrite IH; [by rewrite <- app_assoc|].
    rewrite length_app. cbn. lia.
Qed.

(** C1 (as amended): when the script holds at least one valid action line
    and more of them than [maxActions], the parser stops on the line that
    makes the count exceed the limit and reads nothing after it; it
    returns the actions of the lines read, that is the first
    [max 0 maxActions + 1] of the actions attempted (one more than the
    limit), and after the diagnostics of the lines read exactly one
    overflow diagnostic. *)
Theorem parsePatchScript_overflow (scriptText : string)
    (opsMap : gmap string OpEntry) (maxActions : Z) :
  (Z.max 0 maxActions < Z.of_nat (validLines opsMap scriptText))%Z ->
  let res := parsePatchScript scriptText opsMap (Some maxActions) in
  exists consumed ignored : list string,
    splitLines scriptText = consumed ++ ignored
    /\ (forall other : list string,
          parseLoop opsMap maxActions 0 (consumed ++ other) [] []
          = (actions res, errors res))
    /\ actions res = attempted opsMap 0 consumed
    /\ actions res
       = firstn (length (actions res)) (attempted opsMap 0 (splitLines scriptText))
    /\ Z.of_nat (length (actions res)) = (Z.max 0 maxActions + 1)%Z
    /\ errors res = diagnostics opsMap 0 consumed ++ [TooManyActions maxActions]
    /\ length (List.filter isOverflow (errors res)) = 1.
Proof.
  intros Hmore. unfold validLines in Hmore.
  destruct (parseLoop_overflow opsMap maxActions (splitLines scriptText) 0 [] [])
    as (c & g & Hsplit & Hlen & Hrun).
  { cbn [length]. lia. }
  intros res.
  assert (Hres : actions res = attempted opsMap 0 c
                 /\ errors res = diagnostics opsMap 0 c ++ [TooManyActions maxActions]).
  { subst res. unfold parsePatchScript. rewrite Hsplit, (Hrun g). by cbn. }
  destruct Hres as [Ha He].
  exists c, g. rewrite Ha, He. repeat split.
  - exact Hsplit.
  - intros other. by rewrite (Hrun other).
  - rewrite Hsplit, attempted_app.
    by rewrite firstn_app, Nat.sub_diag, firstn_all, firstn_O, app_nil_r.
  - rewrite Hlen. cbn [length]. lia.
  - rewrite List.filter_app, diagnostics_no_overflow. reflexivity.
Qed.

Lemma parsePatchScript_overflow_witness :
  (Z.max 0 2 < Z.of_nat (validLines registry sevenLines))%Z
  /\ exists consumed ignored : list string,
       splitLines sevenLines = consumed ++ ignored
       /\ Z.of_nat (length (actions (parsePatchScript sevenLines registry (Some 2%Z))))
          = (Z.max 0 2 + 1)%Z.
Proof.
  assert (H : (Z.max 0 2 < Z.of_nat (validLines registry sevenLines))%Z)
    by (vm_compute; reflexivity).
  split; [exact H|].
  destruct (parsePatchScript_overflow sevenLines registry 2%Z H)
    as (c & g & Hs & _ & _ & _ & Hn & _).
  exists c, g. split; [exact Hs | exact Hn].
Defined.

(** C1 (as stated, refuted): with a limit of two and seven valid lines the
    parser returns three actions, not two. *)
Lemma parsePatchScript_overflow_counterexample :
  ~ capAtLimit sevenLines registry 2%Z.
Proof.
  unfold capAtLimit. intros H.
  assert (Hm : (2 < Z.of_nat (validLines registry sevenLines))%Z)
    by (vm_compute; reflexivity).
  destruct (H Hm) as [Hn _]. vm_compute in Hn. discriminate Hn.
Qed.

(** Within the limit the parser returns every attempted action and the
    diagnostics of the rejected lines, none of them an overflow. *)
Lemma parsePatchScript_within_limit (scriptText : string)
    (opsMap : gmap string OpEntry) (maxActions : Z) :
  (Z.of_nat (validLines opsMap scriptText) <= maxActions)%Z ->
  parsePatchScript scriptText opsMap (Some maxActions)
  = mkParseResult (attempted opsMap 0 (splitLines scriptText))
      (diagnostics opsMap 0 (splitLines scriptText)) [].
Proof.
  intros Hfit. unfold parsePatchScript, validLines in *.
  rewrite parseLoop_within_limit by (cbn [length]; lia). reflexivity.
Qed.

(** ** The executor *)

Section ExecutorFacts.

Context {Guild : Type}.
Variable HANDLERS : string -> option (Handler Guild).

Lemma applyLoop_results (acc : list ActionResult) (guild : Guild)
    (actions : list Action) (ctx : Ctx) :
  applyLoop HANDLERS acc guild actions ctx
  = (acc ++ (applyLoop HANDLERS [] guild actions ctx).1,
     (applyLoop HANDLERS [] guild actions ctx).2).
Proof.
  revert acc guild. induction actions as [|a rest IH]; intros acc guild.
  { cbn. by rewrite app_nil_r. }
  cbn [applyLoop]. destruct (applyAction HANDLERS guild a ctx) as [r guild'].
  rewrite (IH (acc ++ [r])), (IH ([] ++ [r])). cbn. by rewrite <- app_assoc.
Qed.

Lemma applyActions_cons (guild : Guild) (a : Action) (rest : list Action) (ctx : Ctx) :
  applyActions HANDLERS guild (a :: rest) ctx
  = let (r, g1) := applyAction HANDLERS guild a ctx in
    let (rs, g2) := applyActions HANDLERS g1 rest ctx in
    (r :: rs, g2).
Proof.
  unfold applyActions. cbn [applyLoop].
  destruct (applyAction HANDLERS guild a ctx) as [r g1].
  rewrite applyLoop_results. cbn.
  by destruct (applyLoop HANDLERS [] g1 rest ctx).
Qed.

Lemma applyActions_app (guild : Guild) (before after : list Action) (ctx : Ctx) :
  applyActions HANDLERS guild (before ++ after) ctx
  = let (rs1, g1) := applyActions HANDLERS guild before ctx in
    let (rs2, g2) := applyActions HANDLERS g1 after ctx in
    (rs1 ++ rs2, g2).
Proof.
  revert guild. induction before as [|a rest IH]; intros guild.
  { change (applyActions HANDLERS guild [] ctx) with (@nil ActionResult, guild).
    cbn [app]. by destruct (applyActions HANDLERS guild after ctx). }
  cbn [app]. rewrite !applyActions_cons.
  destruct (applyAction HANDLERS guild a ctx) as [r g1]. rewrite IH.
  destruct (applyActions HANDLERS g1 rest ctx) as [rs1 g2].
  by destruct (applyActions HANDLERS g2 after ctx).
Qed.

Lemma applyAction_line (guild : Guild) (a : Action) (ctx : Ctx) :
  r_line (applyAction HANDLERS guild a ctx).1 = a_line a.
Proof.
  unfold applyAction. destruct (HANDLERS (a_handler a)) as [fn|]; [|reflexivity].
  by destruct (fn guild (a_args a) ctx) as [g [e|r]].
Qed.

Lemma applyActions_lines (guild : Guild) (actions : list Action) (ctx : Ctx) :
  Forall2 (fun a r => r_line r = a_line a) actions
    (applyActions HANDLERS guild actions ctx).1.
Proof.
  revert guild. induction actions as [|a rest IH]; intros guild.
  { constructor. }
  rewrite applyActions_cons.
  pose proof (applyAction_line guild a ctx) as Hl.
  destruct (applyAction HANDLERS guild a ctx) as [r g1].
  specialize (IH g1). destruct (applyActions HANDLERS g1 rest ctx) as [rs g2].
  constructor; assumption.
Qed.

Lemma applyActions_length (guild : Guild) (actions : list Action) (ctx : Ctx) :
  length (applyActions HANDLERS guild actions ctx).1 = length actions.
Proof.
  pose proof (applyActions_lines guild actions ctx) as H.
  apply Forall2_length in H. by rewrite H.
Qed.

(** C6: the executor gives one result per action, in the order of the
    actions, each carrying the line of its action; the actions run one
    after the other, each on the guild the previous ones left, and the
    result of one action, whatever it is, leaves the following ones to
    run; a handler that throws gives a failure result with the text of
    the error, the line and the handler.  In a batch of three actions
    whose second handler throws, the results are success, failure with
    the message, success. *)
Theorem applyActions_isolates_failures (ctx : Ctx) :
  (forall (guild : Guild) (actions : list Action),
      Forall2 (fun a r => r_line r = a_line a) actions
        (applyActions HANDLERS guild actions ctx).1)
  /\ (forall (guild : Guild) (before : list Action) (a : Action) (after : list Action),
        applyActions HANDLERS guild (before ++ a :: after) ctx
        = let (rs1, g1) := applyActions HANDLERS guild before ctx in
          let (r, g2) := applyAction HANDLERS g1 a ctx in
          let (rs2, g3) := applyActions HANDLERS g2 after ctx in
          (rs1 ++ r :: rs2, g3))
  /\ (forall (guild guild' : Guild) (a : Action) (fn : Handler Guild) (e : Thrown),
        HANDLERS (a_handler a) = Some fn ->
        fn guild (a_args a) ctx = (guild', inl e) ->
        applyAction HANDLERS guild a ctx
        = (mkResult false (a_line a) (Some (a_handler a)) (Some (errorText e))
             None None, guild')
        /\ (truthy (message e) = true -> errorText e = message e))
  /\ (forall (guild g1 g2 g3 : Guild) (a1 a2 a3 : Action)
         (fn1 fn2 fn3 : Handler Guild) (ret1 ret3 : Return) (e : Thrown),
        HANDLERS (a_handler a1) = Some fn1 ->
        fn1 guild (a_args a1) ctx = (g1, inr ret1) ->
        HANDLERS (a_handler a2) = Some fn2 ->
        fn2 g1 (a_args a2) ctx = (g2, inl e) ->
        HANDLERS (a_handler a3) = Some fn3 ->
        fn3 g2 (a_args a3) ctx = (g3, inr ret3) ->
        applyActions HANDLERS guild [a1; a2; a3] ctx
        = ([ mkResult true (a_line a1) (Some (a_handler a1)) None
               (Some (changed ret1)) (targetId ret1);
             mkResult false (a_line a2) (Some (a_handler a2))
               (Some (errorText e)) None None;
             mkResult true (a_line a3) (Some (a_handler a3)) None
               (Some (changed ret3)) (targetId ret3) ], g3)).
Proof.
  split; [|split; [|split]].
  - intros guild actions. apply applyActions_lines.
  - intros guild before a after. rewrite applyActions_app.
    destruct (applyActions HANDLERS guild before ctx) as [rs1 g1].
    rewrite applyActions_cons.
    destruct (applyAction HANDLERS g1 a ctx) as [r g2].
    by destruct (applyActions HANDLERS g2 after ctx).
  - intros guild guild' a fn e Hfn Hthrow. split.
    + unfold applyAction. by rewrite Hfn, Hthrow.
    + unfold errorText. by intros ->.
  - intros guild g1 g2 g3 a1 a2 a3 fn1 fn2 fn3 ret1 ret3 e H1 F1 H2 F2 H3 F3.
    unfold applyActions. cbn [applyLoop]. unfold applyAction.
    by rewrite H1, F1, H2, F2, H3, F3.
Qed.

End ExecutorFacts.

Lemma applyActions_isolates_failures_witness :
  actions (parsePatchScript mixedScript liveRegistry None)
    = [keepLobby; renameAbc; renameLobby]
  /\ applyActions Fixtures.HANDLERS guild0 [keepLobby; renameAbc; renameLobby]
       (mkCtx "audit")
     = ([ mkResult true 1 (Some "noop") None (Some false) None;
          mkResult false 2 (Some "channel.rename") (Some "id invalide") None None;
          mkResult true 3 (Some "channel.rename") None (Some true) (Some lobby) ],
        <[lobby := "lounge"]> guild0).
Proof.
  split; [vm_compute; reflexivity|].
  apply (proj2 (proj2 (proj2
    (applyActions_isolates_failures Fixtures.HANDLERS (mkCtx "audit"))))
    guild0 guild0 guild0 (<[lobby := "lounge"]> guild0)
    keepLobby renameAbc renameLobby
    handlerNoop handlerChannelRename handlerChannelRename
    (mkReturn false None) (mkReturn true (Some lobby))
    (mkThrown "id invalide" "Error: id invalide"));
    vm_compute; reflexivity.
Defined.

(** ** The confirmation code *)

Lemma hexByte_upper (b : byte) :
  String.length (toUpperCase (hexByte b)) = 2
  /\ allChars isUpperHex (toUpperCase (hexByte b)) = true.
Proof. destruct b; split; reflexivity. Qed.

Lemma string_length_append (s t : string) :
  String.length (s +:+ t) = String.length s + String.length t.
Proof. induction s as [|c s IH]; [reflexivity|]. simpl. by rewrite IH. Qed.

Lemma makeConfirmCode_shape (rnd : byte * byte * byte) :
  String.length (makeConfirmCode rnd) = 6
  /\ allChars isUpperHex (makeConfirmCode rnd) = true.
Proof.
  destruct rnd as [[b0 b1] b2]. unfold makeConfirmCode, toUpperCase.
  rewrite !mapChars_append, !string_length_append, !allChars_append.
  destruct (hexByte_upper b0) as [L0 U0], (hexByte_upper b1) as [L1 U1],
    (hexByte_upper b2) as [L2 U2].
  unfold toUpperCase in *. rewrite L0, L1, L2, U0, U1, U2. by split.
Qed.

Lemma makeConfirmCode_upper (rnd : byte * byte * byte) :
  toUpperCase (makeConfirmCode rnd) = makeConfirmCode rnd.
Proof. apply toUpperCase_upperHex, makeConfirmCode_shape. Qed.

(** ** The gates of [apply] *)

Lemma filter_split_length {A : Type} (f : A -> bool) (l : list A) :
  length (List.filter f l) + length (List.filter (fun x => negb (f x)) l)
  = length l.
Proof.
  induction l as [|x l IH]; [reflexivity|].
  cbn [List.filter]. destruct (f x); cbn; lia.
Qed.

Section PatchFacts.

Context {Guild : Type}.
Variable HANDLERS : string -> option (Handler Guild).
Variable env : Env.

Lemma patchApply_no_pending (now : Z) (message : Message) (args : list string)
    (store : gmap string PendingPatch) (guild : Guild) :
  store !! guild_id message = None ->
  patchApply HANDLERS env now message args store guild
  = (ReplyNoPending, store, guild).
Proof. intros H. unfold patchApply. by rewrite H. Qed.

(** Once the slot is empty every attempt fails for want of a pending
    patch, whenever it comes and whatever code it brings. *)
Lemma patchApply_after_delete (message : Message) (store : gmap string PendingPatch) :
  forall (now : Z) (args : list string) (guild : Guild),
    patchApply HANDLERS env now message args (delete (guild_id message) store) guild
    = (ReplyNoPending, delete (guild_id message) store, guild).
Proof. intros. apply patchApply_no_pending, lookup_delete_eq. Qed.

(** An attempt that finds an unexpired patch and brings its code: the
    last gate decides between blocking and running. *)
Lemma patchApply_past_code (now : Z) (message : Message) (args : list string)
    (store : gmap string PendingPatch) (guild : Guild) (pending : PendingPatch) :
  store !! guild_id message = Some pending ->
  (now - createdAt pending <= PATCH_CONFIRM_TTL_MS)%Z ->
  submittedCode args = code pending ->
  patchApply HANDLERS env now message args store guild
  = if hasDeletes pending && negb (allowDeletes env args)
    then (ReplyDeleteBlocked, store, guild)
    else
      let run := applyActions HANDLERS guild (p_actions pending) (applyCtx message) in
      let failed := List.filter (fun r => negb (r_ok r)) run.1 in
      (ReplyApplyDone (length (List.filter r_ok run.1)) (length failed)
         (firstn 10 failed),
       delete (guild_id message) store, run.2).
Proof.
  intros Hp Httl Hcode. unfold patchApply. rewrite Hp.
  destruct (Z.gtb_spec (now - createdAt pending) PATCH_CONFIRM_TTL_MS); [lia|].
  rewrite Hcode, String.eqb_refl. cbn [negb].
  destruct (hasDeletes pending && negb (allowDeletes env args)); [reflexivity|].
  by destruct (applyActions HANDLERS guild (p_actions pending) (applyCtx message)).
Qed.

(** C2: an attempt that passes the four gates runs the stored actions
    and then deletes the pending patch, whatever the handlers did: the
    counts of successes and failures add up to the number of actions,
    and every later attempt for the guild finds no pending patch. *)
Theorem apply_consumes_the_plan (now : Z) (message : Message) (args : list string)
    (store : gmap string PendingPatch) (guild : Guild) (pending : PendingPatch) :
  store !! guild_id message = Some pending ->
  (now - createdAt pending <= PATCH_CONFIRM_TTL_MS)%Z ->
  submittedCode args = code pending ->
  hasDeletes pending && negb (allowDeletes env args) = false ->
  exists (ok ko : nat) (shown : list ActionResult),
    patchApply HANDLERS env now message args store guild
    = (ReplyApplyDone ok ko shown, delete (guild_id message) store,
       (applyActions HANDLERS guild (p_actions pending) (applyCtx message)).2)
    /\ ok + ko = length (p_actions pending)
    /\ delete (guild_id message) store !! guild_id message = None
    /\ forall (now2 : Z) (args2 : list string) (guild2 : Guild),
         patchApply HANDLERS env now2 message args2
           (delete (guild_id message) store) guild2
         = (ReplyNoPending, delete (guild_id message) store, guild2).
Proof.
  intros Hp Httl Hcode Hgate.
  rewrite (patchApply_past_code _ _ _ _ _ _ Hp Httl Hcode), Hgate. cbn zeta.
  eexists _, _, _. split; [reflexivity|]. split; [|split].
  - rewrite filter_split_length. apply applyActions_length.
  - apply lookup_delete_eq.
  - apply patchApply_after_delete.
Qed.

(** C3: the time to live is ten minutes; an attempt that comes later
    than that after the plan fails as expired, runs nothing (the guild
    is as it was) and deletes the pending patch, so that every following
    attempt, the right code or not, fails for want of a pending patch. *)
Theorem apply_after_ttl_expires_once (now : Z) (message : Message)
    (args : list string) (store : gmap string PendingPatch) (guild : Guild)
    (pending : PendingPatch) :
  store !! guild_id message = Some pending ->
  (now - createdAt pending > PATCH_CONFIRM_TTL_MS)%Z ->
  PATCH_CONFIRM_TTL_MS = (10 * 60 * 1000)%Z
  /\ patchApply HANDLERS env now message args store guild
     = (ReplyExpired, delete (guild_id message) store, guild)
  /\ forall (now2 : Z) (args2 : list string) (guild2 : Guild),
       patchApply HANDLERS env now2 message args2
         (delete (guild_id message) store) guild2
       = (ReplyNoPending, delete (guild_id message) store, guild2).
Proof.
  intros Hp Hlate. split; [reflexivity|]. split.
  - unfold patchApply. rewrite Hp.
    by destruct (Z.gtb_spec (now - createdAt pending) PATCH_CONFIRM_TTL_MS); [|lia].
  - apply patchApply_after_delete.
Qed.

(** C4: an attempt on an unexpired patch with another code than the
    stored one fails as an invalid code, runs nothing and leaves the
    store as it was; an attempt that then brings the stored code before
    the expiry goes past the code gate. *)
Theorem wrong_code_retains_the_plan (now : Z) (message : Message)
    (args : list string) (store : gmap string PendingPatch) (guild : Guild)
    (pending : PendingPatch) :
  store !! guild_id message = Some pending ->
  (now - createdAt pending <= PATCH_CONFIRM_TTL_MS)%Z ->
  submittedCode args <> code pending ->
  patchApply HANDLERS env now message args store guild
  = (ReplyInvalidCode, store, guild)
  /\ forall (now2 : Z) (args2 : list string) (guild2 : Guild),
       (now2 - createdAt pending <= PATCH_CONFIRM_TTL_MS)%Z ->
       submittedCode args2 = code pending ->
       pastCodeGate
         (patchApply HANDLERS env now2 message args2 store guild2).1.1 = true.
Proof.
  intros Hp Httl Hcode. split.
  - unfold patchApply. rewrite Hp.
    destruct (Z.gtb_spec (now - createdAt pending) PATCH_CONFIRM_TTL_MS); [lia|].
    apply not_eq_sym, String.eqb_neq in Hcode. by rewrite Hcode.
  - intros now2 args2 guild2 Httl2 Hcode2.
    rewrite (patchApply_past_code _ _ _ _ _ _ Hp Httl2 Hcode2).
    by destruct (hasDeletes pending && negb (allowDeletes env args2)).
Qed.

(** C5: a plan whose script parses without error to actions one of which
    has a delete handler ([channel.delete] or [role.delete]) is stored
    with its flag set; an attempt with the code and within the time to
    live is blocked when deletions are not allowed, runs nothing and
    leaves the store as it was, and runs the actions when they are. *)
Theorem destructive_plan_is_gated (opsMap : gmap string OpEntry) (planned : Z)
    (rnd : byte * byte * byte) (message : Message) (text : string)
    (store : gmap string PendingPatch) :
  attachment message = Some text ->
  let res := parsePatchScript text opsMap (Some (PATCH_MAX_ACTIONS env)) in
  errors res = [] ->
  (exists a : Action, In a (actions res) /\ isDelete a = true) ->
  let pending := mkPending (makeConfirmCode rnd) (actions res) planned true in
  let store' := <[guild_id message := pending]> store in
  patchPlan env opsMap planned rnd message store
  = (ReplyPlan (makeConfirmCode rnd) true, store')
  /\ forall (now : Z) (args : list string) (guild : Guild),
       (now - planned <= PATCH_CONFIRM_TTL_MS)%Z ->
       nth 1 args EmptyString = makeConfirmCode rnd ->
       (allowDeletes env args = false ->
        patchApply HANDLERS env now message args store' guild
        = (ReplyDeleteBlocked, store', guild))
       /\ (allowDeletes env args = true ->
           exists (ok ko : nat) (shown : list ActionResult),
             patchApply HANDLERS env now message args store' guild
             = (ReplyApplyDone ok ko shown, delete (guild_id message) store',
                (applyActions HANDLERS guild (actions res) (applyCtx message)).2)).
Proof.
  intros Hatt res Herr Hdel pending store'.
  assert (Hflag : existsb isDelete (actions res) = true)
    by (apply existsb_exists; exact Hdel).
  split.
  - unfold patchPlan. rewrite Hatt. fold res. rewrite Herr, Hflag. reflexivity.
  - intros now args guild Httl Hcode.
    assert (Hrun := patchApply_past_code now message args store' guild pending).
    rewrite Hrun.
    + cbn [hasDeletes pending p_actions andb].
      split; intros ->; cbn [negb]; [reflexivity|].
      by eexists _, _, _.
    + apply lookup_insert_eq.
    + exact Httl.
    + unfold submittedCode. rewrite Hcode. apply makeConfirmCode_upper.
Qed.

(** C10: a confirmation code is six characters, each a digit or one of
    A to F; the attempt compares the stored code with the submitted one
    put in upper case, so that a submitted word that differs from such a
    code by the case of its letters only goes past the code gate. *)
Theorem confirm_code_accepted_in_any_case (rnd : byte * byte * byte) :
  String.length (makeConfirmCode rnd) = 6
  /\ allChars isUpperHex (makeConfirmCode rnd) = true
  /\ forall (now : Z) (message : Message) (args : list string)
        (store : gmap string PendingPatch) (guild : Guild)
        (pending : PendingPatch),
       store !! guild_id message = Some pending ->
       code pending = makeConfirmCode rnd ->
       (now - createdAt pending <= PATCH_CONFIRM_TTL_MS)%Z ->
       toLowerCase (nth 1 args EmptyString) = toLowerCase (code pending) ->
       submittedCode args = code pending
       /\ pastCodeGate
            (patchApply HANDLERS env now message args store guild).1.1 = true.
Proof.
  destruct (makeConfirmCode_shape rnd) as [Hlen Hhex].
  split; [exact Hlen|]. split; [exact Hhex|].
  intros now message args store guild pending Hp Hc Httl Hcase.
  assert (Hsub : submittedCode args = code pending).
  { unfold submittedCode.
    rewrite <- toUpperCase_toLowerCase, Hcase, toUpperCase_toLowerCase, Hc.
    apply makeConfirmCode_upper. }
  split; [exact Hsub|].
  rewrite (patchApply_past_code _ _ _ _ _ _ Hp Httl Hsub).
  by destruct (hasDeletes pending && negb (allowDeletes env args)).
Qed.

End PatchFacts.

(** ** The gates on the store of the fixtures *)

Ltac by_computation :=
  vm_compute; first [reflexivity | (intros Hcmp; discriminate Hcmp)].

Lemma apply_consumes_the_plan_witness :
  exists (ok ko : nat) (shown : list ActionResult),
    patchApply Fixtures.HANDLERS env0 (t0 + minutes 1)%Z (msg None)
      ["apply"; "a1b2c3"] store0 guild0
    = (ReplyApplyDone ok ko shown, delete (guild_id (msg None)) store0,
       (applyActions Fixtures.HANDLERS guild0 (p_actions pending0)
          (applyCtx (msg None))).2)
    /\ ok + ko = length (p_actions pending0)
    /\ delete (guild_id (msg None)) store0 !! guild_id (msg None) = None
    /\ forall (now2 : Z) (args2 : list string) (guild2 : GuildDouble),
         patchApply Fixtures.HANDLERS env0 now2 (msg None) args2
           (delete (guild_id (msg None)) store0) guild2
         = (ReplyNoPending, delete (guild_id (msg None)) store0, guild2).
Proof.
  apply (apply_consumes_the_plan Fixtures.HANDLERS env0 (t0 + minutes 1)%Z
           (msg None) ["apply"; "a1b2c3"] store0 guild0 pending0);
    by_computation.
Defined.

Lemma apply_after_ttl_expires_once_witness :
  PATCH_CONFIRM_TTL_MS = (10 * 60 * 1000)%Z
  /\ patchApply Fixtures.HANDLERS env0 (t0 + minutes 11)%Z (msg None)
       ["apply"; "A1B2C3"] store0 guild0
     = (ReplyExpired, delete (guild_id (msg None)) store0, guild0)
  /\ forall (now2 : Z) (args2 : list string) (guild2 : GuildDouble),
       patchApply Fixtures.HANDLERS env0 now2 (msg None) args2
         (delete (guild_id (msg None)) store0) guild2
       = (ReplyNoPending, delete (guild_id (msg None)) store0, guild2).
Proof.
  apply (apply_after_ttl_expires_once Fixtures.HANDLERS env0 (t0 + minutes 11)%Z
           (msg None) ["apply"; "A1B2C3"] store0 guild0 pending0);
    by_computation.
Defined.

Lemma wrong_code_retains_the_plan_witness :
  patchApply Fixtures.HANDLERS env0 (t0 + minutes 1)%Z (msg None)
    ["apply"; "FFFFFF"] store0 guild0
  = (ReplyInvalidCode, store0, guild0)
  /\ pastCodeGate
       (patchApply Fixtures.HANDLERS env0 (t0 + minutes 2)%Z (msg None)
          ["apply"; "A1B2C3"] store0 guild0).1.1 = true.
Proof.
  destruct (wrong_code_retains_the_plan Fixtures.HANDLERS env0 (t0 + minutes 1)%Z
              (msg None) ["apply"; "FFFFFF"] store0 guild0 pending0)
    as [Hfail Hretry]; [by_computation | by_computation | by_computation |].
  split; [exact Hfail|].
  apply Hretry; by_computation.
Defined.

Lemma destructive_plan_is_gated_witness :
  let store' :=
    <[guild_id (msg None) :=
        mkPending "A1B2C3"
          [mkAction "delete" "channel" "channel.delete" {[ "id" := lobby ]} 1
             ("delete channel " +:+ lobby)] t0 true]> (∅ : gmap string PendingPatch) in
  patchPlan env0 liveRegistry t0 someBytes (msg (Some deleteScript)) ∅
  = (ReplyPlan "A1B2C3" true, store')
  /\ patchApply Fixtures.HANDLERS env0 (t0 + minutes 1)%Z (msg (Some deleteScript))
       ["apply"; "A1B2C3"] store' guild0
     = (ReplyDeleteBlocked, store', guild0)
  /\ exists (ok ko : nat) (shown : list ActionResult),
       (patchApply Fixtures.HANDLERS env0 (t0 + minutes 1)%Z (msg (Some deleteScript))
          ["apply"; "A1B2C3"; "--allow-deletes"] store' guild0).1
       = (ReplyApplyDone ok ko shown, delete (guild_id (msg None)) store').
Proof.
  intros store'.
  destruct (destructive_plan_is_gated Fixtures.HANDLERS env0 liveRegistry t0
              someBytes (msg (Some deleteScript)) deleteScript ∅)
    as [Hplan Hgate].
  - reflexivity.
  - by_computation.
  - exists (mkAction "delete" "channel" "channel.delete" {[ "id" := lobby ]} 1
              ("delete channel " +:+ lobby)).
    split; [vm_compute; left; reflexivity | reflexivity].
  - split; [exact Hplan|]. split.
    + apply (Hgate (t0 + minutes 1)%Z ["apply"; "A1B2C3"] guild0);
        by_computation.
    + destruct (Hgate (t0 + minutes 1)%Z ["apply"; "A1B2C3"; "--allow-deletes"] guild0)
        as [_ Hrun]; [by_computation | by_computation |].
      destruct Hrun as (ok & ko & shown & Hrun); [by_computation|].
      exists ok, ko, shown. exact (f_equal fst Hrun).
Defined.

Lemma confirm_code_accepted_in_any_case_witness :
  makeConfirmCode someBytes = "A1B2C3"
  /\ submittedCode ["apply"; "a1b2C3"] = code pending0
  /\ pastCodeGate
       (patchApply Fixtures.HANDLERS env0 (t0 + minutes 1)%Z (msg None)
          ["apply"; "a1b2C3"] store0 guild0).1.1 = true.
Proof.
  split; [reflexivity|].
  apply (proj2 (proj2 (confirm_code_accepted_in_any_case Fixtures.HANDLERS env0 someBytes))
           (t0 + minutes 1)%Z (msg None) ["apply"; "a1b2C3"] store0 guild0 pending0);
    by_computation.
Defined.

(* ===================================================================== *)
(** * Further properties of patchEngine.js *)
(* ===================================================================== *)

(** ** The tokenizer on lines made of words and quoted spans *)







Lemma append_cons (c : ascii) (a b : string) :
  String c a +:+ b = String c (a +:+ b).
Proof. reflexivity. Qed.

Lemma append_empty_l (b : string) : EmptyString +:+ b = b.
Proof. reflexivity. Qed.




Lemma append_empty_r (a : string) : a +:+ EmptyString = a.
Proof. induction a as [|x a IH]; [reflexivity|]. by rewrite append_cons, IH. Qed.




(** ** Named and positional arguments *)






(** ** The binding of the parameters *)


Lemma bindParam_fold_dom (named : gmap string string) (params : list string) :
  forall (args : gmap string string) (pos : list string),
    dom (fold_left (bindParam named) params (args, pos)).1
    = dom args ∪ list_to_set params.
Proof.
  induction params as [|p0 rest IH]; intros args pos.
  { cbn. by rewrite union_empty_r_L. }
  cbn [fold_left list_to_set]. unfold bindParam at 2.
  destruct (named !! p0); [|destruct pos];
    rewrite IH, dom_insert_L; clear;
    by rewrite (comm_L (∪) {[p0]} (dom args)), (assoc_L (∪)).
Qed.







(** ** The parser: order, resolution and diagnostics *)

(** The loop when the lines do not hold enough valid ones to pass the
    limit: it reads them all. *)
Lemma parseLoop_no_overflow (opsMap : gmap string OpEntry) (maxActions : Z)
    (lines : list string) :
  forall (i : nat) (acc_a : list Action) (acc_e : list Diag),
    length (attempted opsMap i lines)
      < Z.to_nat (Z.max 1 (maxActions + 1 - Z.of_nat (length acc_a))) ->
    parseLoop opsMap maxActions i lines acc_a acc_e
    = (acc_a ++ attempted opsMap i lines, acc_e ++ diagnostics opsMap i lines).
Proof.
  induction lines as [|raw rest IH]; intros i acc_a acc_e Hfew.
  { cbn. by rewrite !app_nil_r. }
  cbn [attempted diagnostics parseLoop] in *.
  destruct (parseLine opsMap i raw) as [|d|a] eqn:Hl.
  - by apply IH.
  - rewrite IH by exact Hfew. by rewrite <- app_assoc.
  - cbn [length] in Hfew.
    destruct (Z.gtb_spec (Z.of_nat (length (acc_a ++ [a]))) maxActions) as [Hgt|_].
    { rewrite length_app in Hgt. cbn in Hgt. lia. }
    rewrite IH; [by rewrite <- app_assoc|].
    rewrite length_app. cbn. lia.
Qed.

(** The lines read, and what the result is made of: the actions of the
    lines read, their diagnostics, and the overflow diagnostic exactly
    when some lines were left unread or the last line read passed the
    limit. *)
Lemma parsePatchScript_shape (scriptText : string) (opsMap : gmap string OpEntry)
    (maxActions : Z) :
  let res := parsePatchScript scriptText opsMap (Some maxActions) in
  exists consumed ignored : list string,
    splitLines scriptText = consumed ++ ignored
    /\ actions res = attempted opsMap 0 consumed
    /\ ((ignored = []
         /\ length (attempted opsMap 0 consumed)
            < Z.to_nat (Z.max 1 (maxActions + 1))
         /\ errors res = diagnostics opsMap 0 consumed)
        \/ (Z.to_nat (Z.max 1 (maxActions + 1))
              <= length (attempted opsMap 0 (splitLines scriptText))
            /\ errors res
               = diagnostics opsMap 0 consumed ++ [TooManyActions maxActions])).
Proof.
  intros res. subst res. unfold parsePatchScript.
  destruct (le_lt_dec (Z.to_nat (Z.max 1 (maxActions + 1)))
              (length (attempted opsMap 0 (splitLines scriptText)))) as [Hover|Hfew].
  - destruct (parseLoop_overflow opsMap maxActions (splitLines scriptText) 0 [] [])
      as (c & g & Hsplit & Hlen & Hrun).
    { cbn [length]. by rewrite Z.sub_0_r. }
    exists c, g. split; [exact Hsplit|].
    rewrite Hsplit, (Hrun g). cbn. split; [reflexivity|]. right.
    split; [|reflexivity]. by rewrite <- Hsplit.
  - exists (splitLines scriptText), []. rewrite app_nil_r. split; [reflexivity|].
    rewrite parseLoop_no_overflow by (cbn [length]; by rewrite Z.sub_0_r).
    cbn. split; [reflexivity|]. left. by repeat split.
Qed.

Lemma parseLine_emitted (opsMap : gmap string OpEntry) (i : nat) (raw : string) (a : Action) :
  parseLine opsMap i raw = Emitted a ->
  a_line a = i + 1 /\ a_raw a = raw
  /\ exists op : OpEntry,
       resolveOp opsMap (a_verb a) (a_type a) = Some op
       /\ a_handler a = op_handler op
       /\ dom (a_args a) = list_to_set (op_params op).
Proof.
  unfold parseLine.
  destruct (isEmpty (trim raw) || startsWith "#" (trim raw)); [discriminate|].
  destruct (tokenize (trim raw)) as [|tok0 [|tok1 toks]]; try discriminate.
  destruct (if includes ":" tok0 then _ else _) as [[verb type] restIndex].
  destruct (resolveOp opsMap verb type) as [op|] eqn:Hop; [|discriminate].
  intros [= <-]. cbn. repeat split. exists op. repeat split; [exact Hop|].
  unfold bindParams. by rewrite bindParam_fold_dom, dom_empty_L, union_empty_l_L.
Qed.

Lemma parseLine_rejected (opsMap : gmap string OpEntry) (i : nat) (raw : string) (d : Diag) :
  parseLine opsMap i raw = Rejected d ->
  d = FormatInvalid (i + 1)
  \/ exists verb type : string,
       d = UnknownOp (i + 1) verb type /\ resolveOp opsMap verb type = None.
Proof.
  unfold parseLine.
  destruct (isEmpty (trim raw) || startsWith "#" (trim raw)); [discriminate|].
  destruct (tokenize (trim raw)) as [|tok0 [|tok1 toks]];
    try (intros [= <-]; by left).
  destruct (if includes ":" tok0 then _ else _) as [[verb type] restIndex].
  destruct (resolveOp opsMap verb type) as [op|] eqn:Hop; [discriminate|].
  intros [= <-]. right. by exists verb, type.
Qed.

(** Every attempted action comes from a line of the list, at the index
    its line number tells. *)
Lemma attempted_origin (opsMap : gmap string OpEntry) (lines : list string) :
  forall i : nat,
    Forall (fun a => i < a_line a /\ a_line a <= i + length lines
                     /\ lines !! (a_line a - 1 - i) = Some (a_raw a)
                     /\ parseLine opsMap (a_line a - 1) (a_raw a) = Emitted a)
      (attempted opsMap i lines).
Proof.
  induction lines as [|raw rest IH]; intros i; [constructor|].
  assert (Hrest : Forall (fun a => i < a_line a /\ a_line a <= i + length (raw :: rest)
                     /\ (raw :: rest) !! (a_line a - 1 - i) = Some (a_raw a)
                     /\ parseLine opsMap (a_line a - 1) (a_raw a) = Emitted a)
                    (attempted opsMap (S i) rest)).
  { eapply Forall_impl; [apply (IH (S i))|].
    intros a (Hlo & Hhi & Hat & Hpl). cbn [length]. repeat split; [lia|lia| |exact Hpl].
    replace (a_line a - 1 - i) with (S (a_line a - 1 - S i)) by lia. exact Hat. }
  cbn [attempted]. destruct (parseLine opsMap i raw) as [|d|a] eqn:Hl; try exact Hrest.
  constructor; [|exact Hrest].
  destruct (parseLine_emitted _ _ _ _ Hl) as (Hline & Hraw & _).
  rewrite Hline, Hraw. cbn [length].
  replace (i + 1 - 1 - i) with 0 by lia. replace (i + 1 - 1) with i by lia.
  repeat split; [lia | lia | exact Hl].
Qed.

Lemma attempted_increasing (opsMap : gmap string OpEntry) (lines : list string) :
  forall i : nat, StronglySorted lt (List.map a_line (attempted opsMap i lines)).
Proof.
  induction lines as [|raw rest IH]; intros i; [constructor|].
  cbn [attempted]. destruct (parseLine opsMap i raw) as [|d|a] eqn:Hl; try apply IH.
  cbn [List.map]. constructor; [apply IH|].
  destruct (parseLine_emitted _ _ _ _ Hl) as (Hline & _).
  rewrite Forall_map. eapply Forall_impl; [apply (attempted_origin opsMap rest (S i))|].
  intros b (Hlo & _). cbn. lia.
Qed.

(** X5: the actions come in the order of the lines of the script, with
    or without overflow: their line numbers, counted from 1, increase
    strictly, and each action keeps as [raw] the very line of the script
    that has its number. *)
Theorem parsePatchScript_script_order (scriptText : string)
    (opsMap : gmap string OpEntry) (opts : option Z) :
  let res := parsePatchScript scriptText opsMap opts in
  StronglySorted lt (List.map a_line (actions res))
  /\ Forall (fun a => 1 <= a_line a
                      /\ splitLines scriptText !! (a_line a - 1) = Some (a_raw a))
       (actions res).
Proof.
  intros res.
  destruct (parsePatchScript_shape scriptText opsMap
              (match opts with Some m => m | None => 500%Z end))
    as (c & g & Hsplit & Hact & _).
  assert (Hsame : parsePatchScript scriptText opsMap opts
                  = parsePatchScript scriptText opsMap
                      (Some (match opts with Some m => m | None => 500%Z end)))
    by (by destruct opts).
  subst res. rewrite Hsame, Hact. split; [apply attempted_increasing|].
  eapply Forall_impl; [apply (attempted_origin opsMap c 0)|].
  intros a (Hlo & Hhi & Hat & _). split; [lia|].
  rewrite Hsplit. rewrite Nat.sub_0_r in Hat. by apply lookup_app_l_Some.
Qed.


Lemma diagnostics_app (opsMap : gmap string OpEntry) (l1 l2 : list string) (i : nat) :
  diagnostics opsMap i (l1 ++ l2)
  = diagnostics opsMap i l1 ++ diagnostics opsMap (i + length l1) l2.
Proof.
  revert i. induction l1 as [|raw rest IH]; intros i.
  - cbn. by rewrite Nat.add_0_r.
  - cbn [app diagnostics length]. rewrite IH.
    replace (S i + length rest) with (i + S (length rest)) by lia.
    by destruct (parseLine opsMap i raw).
Qed.

Lemma diagnostics_origin (opsMap : gmap string OpEntry) (lines : list string) :
  forall i : nat,
    Forall (fun d => exists n : nat,
                i < n /\ n <= i + length lines
                /\ (d = FormatInvalid n
                    \/ exists verb type : string,
                         d = UnknownOp n verb type
                         /\ resolveOp opsMap verb type = None))
      (diagnostics opsMap i lines).
Proof.
  induction lines as [|raw rest IH]; intros i; [constructor|].
  assert (Hrest : Forall (fun d => exists n : nat,
                i < n /\ n <= i + length (raw :: rest)
                /\ (d = FormatInvalid n
                    \/ exists verb type : string,
                         d = UnknownOp n verb type
                         /\ resolveOp opsMap verb type = None))
                    (diagnostics opsMap (S i) rest)).
  { eapply Forall_impl; [apply (IH (S i))|].
    intros d (n & Hlo & Hhi & Hd). exists n. cbn [length]. repeat split; [lia|lia|exact Hd]. }
  cbn [diagnostics]. destruct (parseLine opsMap i raw) as [|d|a] eqn:Hl; try exact Hrest.
  constructor; [|exact Hrest]. exists (i + 1). cbn [length].
  repeat split; [lia | lia | by apply parseLine_rejected in Hl].
Qed.

(** A result without error holds the actions of all the valid lines. *)
Lemma parsePatchScript_no_error_actions (scriptText : string)
    (opsMap : gmap string OpEntry) (maxActions : Z) :
  errors (parsePatchScript scriptText opsMap (Some maxActions)) = [] ->
  actions (parsePatchScript scriptText opsMap (Some maxActions))
  = attempted opsMap 0 (splitLines scriptText).
Proof.
  destruct (parsePatchScript_shape scriptText opsMap maxActions)
    as (c & g & Hsplit & Hact & Hcase). cbn zeta in *.
  destruct Hcase as [(-> & _ & _)|(_ & Herr)].
  - rewrite app_nil_r in Hsplit. by rewrite Hsplit, Hact.
  - rewrite Herr. intros H. by apply app_eq_nil in H as [_ H].
Qed.

(** X7: a script parses without error exactly when none of its lines is
    rejected and its valid lines are no more than the limit (or there is
    none at all); the actions are then those of all the valid lines. *)
Theorem parsePatchScript_accepts_iff (scriptText : string)
    (opsMap : gmap string OpEntry) (maxActions : Z) :
  let res := parsePatchScript scriptText opsMap (Some maxActions) in
  (errors res = []
   <-> diagnostics opsMap 0 (splitLines scriptText) = []
       /\ (validLines opsMap scriptText = 0
           \/ (Z.of_nat (validLines opsMap scriptText) <= maxActions)%Z))
  /\ (errors res = [] ->
      actions res = attempted opsMap 0 (splitLines scriptText)).
Proof.
  intros res.
  destruct (parsePatchScript_shape scriptText opsMap maxActions)
    as (c & g & Hsplit & Hact & Hcase).
  fold res in Hact, Hcase. unfold validLines.
  destruct Hcase as [(-> & Hfew & Herr)|(Hover & Herr)].
  - rewrite app_nil_r in Hsplit. rewrite Hsplit, Herr, Hact.
    split; [|done]. split.
    + intros Hd. split; [exact Hd|]. lia.
    + by intros [Hd _].
  - rewrite Herr. split.
    + split.
      * intros H. by apply app_eq_nil in H as [_ H].
      * intros [_ Hfit]. lia.
    + intros H. by apply app_eq_nil in H as [_ H].
Qed.

(** X8: the diagnostics name lines of the script: a format or resolution
    diagnostic carries the number of a line of the script, and an unknown
    operation is one that the registry does not resolve, neither exactly
    nor by the wildcard of its verb; the overflow diagnostic carries the
    limit and comes at most once. *)
Theorem parsePatchScript_diagnostics (scriptText : string)
    (opsMap : gmap string OpEntry) (maxActions : Z) :
  let res := parsePatchScript scriptText opsMap (Some maxActions) in
  Forall (fun d =>
            match d with
            | FormatInvalid n => 1 <= n <= length (splitLines scriptText)
            | UnknownOp n verb type =>
                1 <= n <= length (splitLines scriptText)
                /\ resolveOp opsMap verb type = None
            | TooManyActions m => m = maxActions
            end)
    (errors res)
  /\ length (List.filter isOverflow (errors res)) <= 1.
Proof.
  intros res.
  destruct (parsePatchScript_shape scriptText opsMap maxActions)
    as (c & g & Hsplit & Hact & Hcase).
  fold res in Hact, Hcase.
  assert (Hdiag : Forall (fun d =>
            match d with
            | FormatInvalid n => 1 <= n <= length (splitLines scriptText)
            | UnknownOp n verb type =>
                1 <= n <= length (splitLines scriptText)
                /\ resolveOp opsMap verb type = None
            | TooManyActions m => m = maxActions
            end) (diagnostics opsMap 0 c)).
  { eapply Forall_impl; [apply (diagnostics_origin opsMap c 0)|].
    intros d (n & Hlo & Hhi & Hd). rewrite Hsplit, length_app.
    destruct Hd as [->|(verb & type & -> & Hnone)]; [lia|]. split; [lia|exact Hnone]. }
  destruct Hcase as [(_ & _ & ->)|(_ & ->)].
  - split; [exact Hdiag|]. rewrite diagnostics_no_overflow. cbn. lia.
  - split.
    + apply Forall_app. split; [exact Hdiag|]. by constructor.
    + rewrite List.filter_app, diagnostics_no_overflow. cbn. lia.
Qed.

Lemma parsePatchScript_accepts_iff_witness :
  actions (parsePatchScript mixedScript liveRegistry (Some 500%Z))
  = attempted liveRegistry 0 (splitLines mixedScript).
Proof.
  apply (proj2 (parsePatchScript_accepts_iff mixedScript liveRegistry 500%Z)).
  vm_compute; reflexivity.
Defined.

(** ** The confirmation code keeps its bytes *)

Lemma byteOfHex_hexByte (b : byte) :
  match toUpperCase (hexByte b) with
  | String hi (String lo EmptyString) => byteOfHex hi lo = Some b
  | _ => False
  end.
Proof. destruct b; reflexivity. Qed.

Lemma bytesOfCode_makeConfirmCode (rnd : byte * byte * byte) :
  bytesOfCode (makeConfirmCode rnd) = Some rnd.
Proof.
  destruct rnd as [[b0 b1] b2]. unfold makeConfirmCode, toUpperCase.
  rewrite !mapChars_append.
  pose proof (byteOfHex_hexByte b0) as H0.
  pose proof (byteOfHex_hexByte b1) as H1.
  pose proof (byteOfHex_hexByte b2) as H2.
  unfold toUpperCase in *.
  destruct (mapChars upperChar (hexByte b0)) as [|a0 [|a1 [|]]]; try contradiction.
  destruct (mapChars upperChar (hexByte b1)) as [|c0 [|c1 [|]]]; try contradiction.
  destruct (mapChars upperChar (hexByte b2)) as [|e0 [|e1 [|]]]; try contradiction.
  cbn [String.append bytesOfCode]. simpl. by rewrite H0, H1, H2.
Qed.

(** X9: the confirmation code loses nothing of the three random bytes:
    two draws give the same code only when they are the same bytes, so
    the codes are 2^24 distinct words. *)
Theorem makeConfirmCode_injective (rnd1 rnd2 : byte * byte * byte) :
  makeConfirmCode rnd1 = makeConfirmCode rnd2 -> rnd1 = rnd2.
Proof.
  intros H. apply (f_equal bytesOfCode) in H.
  rewrite !bytesOfCode_makeConfirmCode in H. by injection H.
Qed.

Lemma makeConfirmCode_injective_witness :
  (xa1, xb2, xc3) = someBytes.
Proof. apply (makeConfirmCode_injective (xa1, xb2, xc3) someBytes). reflexivity. Defined.

(** ** Trimming and splitting *)

Lemma trimEnd_idempotent (s : string) : trimEnd (trimEnd s) = trimEnd s.
Proof.
  induction s as [|c s IH]; [reflexivity|].
  cbn [trimEnd]. destruct (isWhiteSpace c && isEmpty (trimEnd s)) eqn:Hc; [reflexivity|].
  cbn [trimEnd]. by rewrite IH, Hc.
Qed.

Lemma trimStart_startsClean (s : string) : startsClean (trimStart s) = true.
Proof.
  induction s as [|c s IH]; [reflexivity|].
  cbn [trimStart]. destruct (isWhiteSpace c) eqn:Hc; [exact IH|].
  cbn. unfold notSpace. by rewrite Hc.
Qed.

Lemma trimStart_clean (s : string) : startsClean s = true -> trimStart s = s.
Proof.
  destruct s as [|c s]; [reflexivity|]. cbn. unfold notSpace.
  by intros ->%negb_true_iff.
Qed.

Lemma trimEnd_startsClean (s : string) :
  startsClean s = true -> startsClean (trimEnd s) = true.
Proof.
  destruct s as [|c s]; [reflexivity|]. cbn. unfold notSpace.
  intros Hc. pose proof Hc as Hc'. apply negb_true_iff in Hc'. rewrite Hc'. cbn.
  unfold notSpace. exact Hc.
Qed.

Lemma trim_idempotent (s : string) : trim (trim s) = trim s.
Proof.
  unfold trim.
  rewrite (trimStart_clean (trimEnd (trimStart s)))
    by apply trimEnd_startsClean, trimStart_startsClean.
  apply trimEnd_idempotent.
Qed.










(** ** The mapping source read back *)














Lemma loadOpsLine_entryOfLine (map : gmap string OpEntry) (i : nat) (rawLine : string) :
  loadOpsLine map i rawLine
  = match entryOfLine i rawLine with
    | Some (key, e) => <[key := e]> map
    | None => map
    end.
Proof.
  unfold loadOpsLine, entryOfLine.
  destruct (isEmpty (trim rawLine) || startsWith "#" (trim rawLine)); [reflexivity|].
  destruct (List.map trim (split "=" (trim rawLine))) as [|lhs [|rhs sides]];
    try reflexivity.
  by destruct (isEmpty lhs || isEmpty rhs).
Qed.






(** ** What a loaded table holds *)

Lemma includes_colon (a b : string) : includes ":" (a +:+ ":" +:+ b) = true.
Proof.
  unfold includes. induction a as [|c a IH]; [reflexivity|].
  rewrite append_cons. cbn [indexOf]. destruct (Ascii.eqb c ":"); [reflexivity|].
  by destruct (indexOf ":" (a +:+ ":" +:+ b)).
Qed.

Lemma trimmed_parts (sep : ascii) (s : string) :
  Forall (fun p => trim p = p) (List.map trim (split sep s)).
Proof.
  apply List.Forall_forall. intros p Hp. apply in_map_iff in Hp as (x & <- & _).
  apply trim_idempotent.
Qed.

Lemma declared_params_clean (rparts : list string) :
  Forall (fun p => truthy p = true /\ trim p = p)
    match nth_error rparts 1 with
    | Some paramsRaw =>
        if truthy paramsRaw
        then List.filter truthy (List.map trim (split "," paramsRaw))
        else []
    | None => []
    end.
Proof.
  destruct (nth_error rparts 1) as [paramsRaw|]; [|constructor].
  destruct (truthy paramsRaw); [|constructor].
  apply List.Forall_forall. intros p [Hp Ht]%filter_In. split; [exact Ht|].
  pose proof (trimmed_parts "," paramsRaw) as Hc.
  rewrite List.Forall_forall in Hc. by apply Hc.
Qed.

Lemma entryOfLine_facts (i : nat) (rawLine key : string) (e : OpEntry) :
  entryOfLine i rawLine = Some (key, e) ->
  op_line e = i + 1
  /\ includes ":" key = true
  /\ trim (op_handler e) = op_handler e
  /\ Forall (fun p => truthy p = true /\ trim p = p) (op_params e).
Proof.
  unfold entryOfLine.
  destruct (isEmpty (trim rawLine) || startsWith "#" (trim rawLine)); [discriminate|].
  destruct (List.map trim (split "=" (trim rawLine))) as [|lhs [|rhs sides]];
    try discriminate.
  destruct (isEmpty lhs || isEmpty rhs); [discriminate|].
  intros [= <- <-]. cbn [op_line op_handler op_params].
  split; [reflexivity|]. split; [apply includes_colon|].
  pose proof (trimmed_parts ":" rhs) as Hr.
  split.
  - destruct (List.map trim (split ":" rhs)) as [|h t]; [reflexivity|].
    cbn. by apply Forall_inv in Hr.
  - apply declared_params_clean.
Qed.

(** What the loop of the loader keeps true: every entry of the table
    is the one declared by a line already read, and no line read after
    that one declares its key. *)
Lemma loadOpsLines_invariant (rest : list string) :
  forall (done : list string) (map : gmap string OpEntry),
    (forall key e, map !! key = Some e ->
       exists (j : nat) (l : string),
         done !! j = Some l /\ entryOfLine j l = Some (key, e)
         /\ forall (j' : nat) (l' : string) (e' : OpEntry),
              j < j' -> done !! j' = Some l' -> entryOfLine j' l' <> Some (key, e')) ->
    forall key e, loadOpsLines map (length done) rest !! key = Some e ->
      exists (j : nat) (l : string),
        (done ++ rest) !! j = Some l /\ entryOfLine j l = Some (key, e)
        /\ forall (j' : nat) (l' : string) (e' : OpEntry),
             j < j' -> (done ++ rest) !! j' = Some l' ->
             entryOfLine j' l' <> Some (key, e').
Proof.
  induction rest as [|l rest IH]; intros done map Hinv key e.
  { cbn [loadOpsLines]. rewrite app_nil_r. apply Hinv. }
  cbn [loadOpsLines].
  replace (done ++ l :: rest) with ((done ++ [l]) ++ rest) by (by rewrite <- app_assoc).
  replace (S (length done)) with (length (done ++ [l])) by (rewrite length_app; cbn; lia).
  apply IH. clear key e. intros key e Hget.
  rewrite loadOpsLine_entryOfLine in Hget.
  destruct (entryOfLine (length done) l) as [[k0 e0]|] eqn:Hdecl.
  - destruct (decide (k0 = key)) as [->|Hne].
    + rewrite lookup_insert_eq in Hget. injection Hget as <-.
      exists (length done), l. split; [|split; [exact Hdecl|]].
      * rewrite lookup_app_r by lia. by rewrite Nat.sub_diag.
      * intros j' l' e' Hlt Hat. apply lookup_lt_Some in Hat.
        rewrite length_app in Hat. cbn in Hat. lia.
    + rewrite lookup_insert_ne in Hget by exact Hne.
      destruct (Hinv key e Hget) as (j & lj & Hj & Hdj & Hlast).
      exists j, lj. split; [by apply lookup_app_l_Some|]. split; [exact Hdj|].
      intros j' l' e' Hlt Hat.
      destruct (decide (j' < length done)) as [Hin|Hout].
      * rewrite lookup_app_l in Hat by exact Hin. by apply (Hlast j' l' e').
      * assert (j' = length done) as ->.
        { apply lookup_lt_Some in Hat. rewrite length_app in Hat. cbn in Hat. lia. }
        rewrite lookup_app_r, Nat.sub_diag in Hat by lia. injection Hat as <-.
        rewrite Hdecl. intros [= Hk _]. by apply Hne.
  - destruct (Hinv key e Hget) as (j & lj & Hj & Hdj & Hlast).
    exists j, lj. split; [by apply lookup_app_l_Some|]. split; [exact Hdj|].
    intros j' l' e' Hlt Hat.
    destruct (decide (j' < length done)) as [Hin|Hout].
    + rewrite lookup_app_l in Hat by exact Hin. by apply (Hlast j' l' e').
    + assert (j' = length done) as ->.
      { apply lookup_lt_Some in Hat. rewrite length_app in Hat. cbn in Hat. lia. }
      rewrite lookup_app_r, Nat.sub_diag in Hat by lia. injection Hat as <-.
      by rewrite Hdecl.
Qed.

(** X11: every entry of a loaded table is what the last line declaring
    its key says: its line number is the number of a line of the source,
    that line declares this key with this very entry, and no later line
    declares the key; the key holds a colon, the handler is trimmed, and
    the parameters are trimmed and none is empty.  This holds for any
    source text. *)
Theorem loadOpsMap_entries (raw key : string) (e : OpEntry) :
  loadOpsMap raw !! key = Some e ->
  1 <= op_line e <= length (splitLines raw)
  /\ (exists l : string,
        splitLines raw !! (op_line e - 1) = Some l
        /\ entryOfLine (op_line e - 1) l = Some (key, e))
  /\ (forall (j : nat) (l : string) (e' : OpEntry),
        op_line e <= j -> splitLines raw !! j = Some l ->
        entryOfLine j l <> Some (key, e'))
  /\ includes ":" key = true
  /\ trim (op_handler e) = op_handler e
  /\ Forall (fun p => truthy p = true /\ trim p = p) (op_params e).
Proof.
  intros Hget. unfold loadOpsMap in Hget.
  destruct (loadOpsLines_invariant (splitLines raw) [] ∅) with (key := key) (e := e)
    as (j & l & Hj & Hdecl & Hlast); [by intros k x Hk | exact Hget |].
  cbn [app] in Hj, Hlast.
  destruct (entryOfLine_facts _ _ _ _ Hdecl) as (Hline & Hcolon & Hh & Hp).
  assert (Hjl : j < length (splitLines raw)) by (by apply lookup_lt_Some in Hj).
  rewrite Hline. replace (j + 1 - 1) with j by lia.
  split; [lia|]. split; [by exists l|]. split; [|by repeat split].
  intros j' l' e' Hlt Hat. apply (Hlast j' l' e'); [lia | exact Hat].
Qed.

Lemma loadOpsMap_entries_witness :
  1 <= 2 <= length (splitLines opsSource)
  /\ includes ":" "set:*" = true.
Proof.
  destruct (loadOpsMap_entries opsSource "set:*" (mkOpEntry "handlerB" ["id"] 2))
    as (Hline & _ & _ & Hcolon & _).
  - vm_compute; reflexivity.
  - split; [exact Hline | exact Hcolon].
Defined.

(* ===================================================================== *)
(** * Further properties of the [patch] command *)
(* ===================================================================== *)

Section CommandFacts.

Context {Guild : Type}.
Variable HANDLERS : string -> option (Handler Guild).
Variable env : Env.

(** X12: a plan is all or nothing.  Either the store is left exactly as
    it was (no attachment, or a script with errors, of which at most
    fifteen are shown), or the script has no error and the slot of the
    guild now holds the actions of all the valid lines of the script in
    their order, the time of the plan, the code drawn and the delete
    flag that is true exactly when one of these actions has a delete
    handler. *)
Theorem patchPlan_all_or_nothing (opsMap : gmap string OpEntry) (now : Z)
    (rnd : byte * byte * byte) (message : Message)
    (store : gmap string PendingPatch) :
  let out := patchPlan env opsMap now rnd message store in
  (out.2 = store
   /\ (out.1 = ReplyNoAttachment
       \/ exists shown : list Diag,
            out.1 = ReplyInvalidPatch shown /\ shown <> [] /\ length shown <= 15))
  \/ (exists text : string,
        attachment message = Some text
        /\ errors (parsePatchScript text opsMap (Some (PATCH_MAX_ACTIONS env))) = []
        /\ let acts := attempted opsMap 0 (splitLines text) in
           out.1 = ReplyPlan (makeConfirmCode rnd) (existsb isDelete acts)
           /\ out.2 = <[guild_id message :=
                          mkPending (makeConfirmCode rnd) acts now
                            (existsb isDelete acts)]> store).
Proof.
  intros out. subst out. unfold patchPlan.
  destruct (attachment message) as [text|]; [|left; split; [reflexivity|by left]].
  pose proof (parsePatchScript_no_error_actions text opsMap (PATCH_MAX_ACTIONS env))
    as Hacts.
  destruct (errors (parsePatchScript text opsMap (Some (PATCH_MAX_ACTIONS env))))
    as [|d ds] eqn:Herr.
  - right. exists text. rewrite (Hacts eq_refl). by repeat split.
  - left. split; [reflexivity|]. right. exists (firstn 15 (d :: ds)).
    split; [reflexivity|]. split; [discriminate|]. rewrite length_firstn. lia.
Qed.

(** X13: a successful plan replaces what was pending for the guild and
    keeps nothing of it: the store after the plan is the same whether or
    not a patch was pending, and the slot holds the new code and the new
    time. *)
Theorem patchPlan_replaces (opsMap : gmap string OpEntry) (now : Z)
    (rnd : byte * byte * byte) (message : Message) (text : string)
    (store : gmap string PendingPatch) (old : PendingPatch) :
  attachment message = Some text ->
  errors (parsePatchScript text opsMap (Some (PATCH_MAX_ACTIONS env))) = [] ->
  (patchPlan env opsMap now rnd message (<[guild_id message := old]> store)).2
  = (patchPlan env opsMap now rnd message store).2
  /\ exists pending : PendingPatch,
       (patchPlan env opsMap now rnd message (<[guild_id message := old]> store)).2
         !! guild_id message = Some pending
       /\ code pending = makeConfirmCode rnd
       /\ createdAt pending = now.
Proof.
  intros Hatt Herr. unfold patchPlan. rewrite Hatt, Herr. cbn [snd].
  rewrite insert_insert_eq. split; [reflexivity|].
  eexists. split; [apply lookup_insert_eq|]. by split.
Qed.

(** X14: after a new plan the code of the plan it replaced no longer
    opens the gate: when the two draws differ, an attempt with the old
    code, within the time to live of the new plan, is refused as an
    invalid code and leaves the new plan pending. *)
Theorem replan_invalidates_old_code (opsMap : gmap string OpEntry) (planned now : Z)
    (rnd1 rnd2 : byte * byte * byte) (message : Message) (text : string)
    (args : list string) (store : gmap string PendingPatch) (guild : Guild) :
  attachment message = Some text ->
  errors (parsePatchScript text opsMap (Some (PATCH_MAX_ACTIONS env))) = [] ->
  rnd1 <> rnd2 ->
  nth 1 args EmptyString = makeConfirmCode rnd1 ->
  (now - planned <= PATCH_CONFIRM_TTL_MS)%Z ->
  let store' := (patchPlan env opsMap planned rnd2 message store).2 in
  patchApply HANDLERS env now message args store' guild
  = (ReplyInvalidCode, store', guild).
Proof.
  intros Hatt Herr Hne Hcode Httl store'. subst store'.
  unfold patchPlan. rewrite Hatt, Herr. cbn [snd].
  unfold patchApply. rewrite lookup_insert_eq. cbn [createdAt code].
  destruct (Z.gtb_spec (now - planned) PATCH_CONFIRM_TTL_MS); [lia|].
  unfold submittedCode. rewrite Hcode, makeConfirmCode_upper.
  destruct (String.eqb_spec (makeConfirmCode rnd2) (makeConfirmCode rnd1)) as [Heq|_];
    [|reflexivity].
  exfalso. apply Hne. symmetry.
  apply (f_equal bytesOfCode) in Heq.
  rewrite !bytesOfCode_makeConfirmCode in Heq. by injection Heq.
Qed.

(** X15: the command never touches the pending patch of another guild:
    whatever the sub-command, its arguments, the time and the outcome,
    the slot of every guild other than that of the message is as
    before. *)
Theorem patchCommand_other_guilds (opsMap : gmap string OpEntry) (now : Z)
    (rnd : byte * byte * byte) (message : Message) (args : list string)
    (store : gmap string PendingPatch) (guild : Guild) (other : string) :
  other <> guild_id message ->
  (patchCommand HANDLERS env opsMap now rnd message args store guild).1.2 !! other
  = store !! other.
Proof.
  intros Hne. unfold patchCommand.
  destruct (isEmpty (toLowerCase (nth 0 args EmptyString))
            || String.eqb (toLowerCase (nth 0 args EmptyString)) "help");
    [reflexivity|].
  destruct (String.eqb (toLowerCase (nth 0 args EmptyString)) "export");
    [reflexivity|].
  destruct (String.eqb (toLowerCase (nth 0 args EmptyString)) "cancel").
  { cbn. by apply lookup_delete_ne. }
  destruct (String.eqb (toLowerCase (nth 0 args EmptyString)) "plan").
  { unfold patchPlan. destruct (attachment message) as [text|]; [|reflexivity].
    destruct (errors _); [|reflexivity]. cbn. by apply lookup_insert_ne. }
  destruct (String.eqb (toLowerCase (nth 0 args EmptyString)) "apply");
    [|reflexivity].
  unfold patchApply. destruct (store !! guild_id message) as [pending|]; [|reflexivity].
  destruct (now - createdAt pending >? PATCH_CONFIRM_TTL_MS)%Z.
  { cbn. by apply lookup_delete_ne. }
  destruct (negb (String.eqb (code pending) (submittedCode args))); [reflexivity|].
  destruct (hasDeletes pending && negb (allowDeletes env args)); [reflexivity|].
  destruct (applyActions HANDLERS guild (p_actions pending) (applyCtx message)).
  cbn. by apply lookup_delete_ne.
Qed.

(** X16: the guild is reached through the four gates only.  Whatever
    the sub-command and its arguments, when the reply is not the report
    of an apply the guild is as it was; and when it is, a patch was
    pending for the guild of the message, not older than the time to
    live, with the submitted code put in upper case as its code, and
    without delete actions unless deletions were allowed: the guild is
    then what the executor made of it with the stored actions, the slot
    is deleted, the two counts add up to the number of actions and at
    most ten failures are shown. *)
Theorem patchCommand_reaches_guild_through_gates (opsMap : gmap string OpEntry)
    (now : Z) (rnd : byte * byte * byte) (message : Message) (args : list string)
    (store : gmap string PendingPatch) (guild : Guild) :
  let out := patchCommand HANDLERS env opsMap now rnd message args store guild in
  ((forall (ok ko : nat) (shown : list ActionResult),
       out.1.1 <> ReplyApplyDone ok ko shown) ->
   out.2 = guild)
  /\ (forall (ok ko : nat) (shown : list ActionResult),
        out.1.1 = ReplyApplyDone ok ko shown ->
        exists pending : PendingPatch,
          store !! guild_id message = Some pending
          /\ (now - createdAt pending <= PATCH_CONFIRM_TTL_MS)%Z
          /\ code pending = submittedCode args
          /\ (hasDeletes pending = true -> allowDeletes env args = true)
          /\ out.2 = (applyActions HANDLERS guild (p_actions pending)
                        (applyCtx message)).2
          /\ out.1.2 = delete (guild_id message) store
          /\ ok + ko = length (p_actions pending)
          /\ length shown <= 10).
Proof.
  intros out. subst out. unfold patchCommand.
  destruct (isEmpty (toLowerCase (nth 0 args EmptyString))
            || String.eqb (toLowerCase (nth 0 args EmptyString)) "help");
    [by split|].
  destruct (String.eqb (toLowerCase (nth 0 args EmptyString)) "export"); [by split|].
  destruct (String.eqb (toLowerCase (nth 0 args EmptyString)) "cancel"); [by split|].
  destruct (String.eqb (toLowerCase (nth 0 args EmptyString)) "plan").
  { destruct (patchPlan env opsMap now rnd message store) as [r s] eqn:Hplan.
    split; [done|]. intros ok ko shown Hr. cbn in Hr. subst r.
    unfold patchPlan in Hplan. destruct (attachment message); [|discriminate].
    by destruct (errors _). }
  destruct (String.eqb (toLowerCase (nth 0 args EmptyString)) "apply"); [|by split].
  unfold patchApply. destruct (store !! guild_id message) as [pending|]; [|by split].
  destruct (Z.gtb_spec (now - createdAt pending) PATCH_CONFIRM_TTL_MS) as [|Httl];
    [by split|].
  destruct (String.eqb_spec (code pending) (submittedCode args)) as [Hcode|];
    cbn [negb]; [|by split].
  destruct (hasDeletes pending && negb (allowDeletes env args)) eqn:Hgate; [by split|].
  pose proof (applyActions_length HANDLERS guild (p_actions pending) (applyCtx message))
    as Hlen.
  destruct (applyActions HANDLERS guild (p_actions pending) (applyCtx message))
    as [results guild'] eqn:Hrun.
  cbn [fst snd] in *. split.
  - intros Hnot. exfalso. by eapply Hnot.
  - intros ok ko shown [= <- <- <-]. exists pending. rewrite Hrun. cbn [snd].
    split; [reflexivity|]. split; [exact Httl|]. split; [exact Hcode|].
    split.
    { intros Hd. rewrite Hd in Hgate. cbn in Hgate. by apply negb_false_iff in Hgate. }
    split; [reflexivity|]. split; [reflexivity|]. split.
    + by rewrite filter_split_length.
    + rewrite length_firstn. lia.
Qed.

(** X17: a cancel empties the slot of the guild whatever it held: after
    it every attempt to apply, at any time and with any code, finds no
    pending patch and leaves guild and store as they are, and a second
    cancel changes nothing. *)
Theorem patchCancel_then_apply (message : Message)
    (store : gmap string PendingPatch) :
  let store' := (patchCancel message store).2 in
  (forall (now : Z) (args : list string) (guild : Guild),
      patchApply HANDLERS env now message args store' guild
      = (ReplyNoPending, store', guild))
  /\ patchCancel message store' = (ReplyCancelled, store').
Proof.
  cbn. split.
  - apply patchApply_after_delete.
  - unfold patchCancel. f_equal. apply delete_id, lookup_delete_eq.
Qed.

End CommandFacts.

(** ** The command on the store of the fixtures *)

Lemma patchPlan_replaces_witness :
  (patchPlan env0 liveRegistry t0 someBytes (msg (Some deleteScript))
     (<[guild_id (msg (Some deleteScript)) := pending0]> ∅)).2
  = (patchPlan env0 liveRegistry t0 someBytes (msg (Some deleteScript)) ∅).2.
Proof.
  apply (proj1 (patchPlan_replaces env0 liveRegistry t0 someBytes
                  (msg (Some deleteScript)) deleteScript ∅ pending0
                  eq_refl ltac:(vm_compute; reflexivity))).
Defined.

Lemma replan_invalidates_old_code_witness :
  let store' :=
    (patchPlan env0 liveRegistry t0 (x00, x00, x01) (msg (Some mixedScript)) store0).2 in
  patchApply Fixtures.HANDLERS env0 (t0 + minutes 1)%Z (msg (Some mixedScript))
    ["apply"; "A1B2C3"] store' guild0
  = (ReplyInvalidCode, store', guild0).
Proof.
  apply (replan_invalidates_old_code Fixtures.HANDLERS env0 liveRegistry t0
           (t0 + minutes 1)%Z someBytes (x00, x00, x01) (msg (Some mixedScript))
           mixedScript ["apply"; "A1B2C3"] store0 guild0).
  - reflexivity.
  - vm_compute; reflexivity.
  - discriminate.
  - reflexivity.
  - vm_compute. discriminate.
Defined.

Lemma patchCommand_other_guilds_witness :
  (patchCommand Fixtures.HANDLERS env0 liveRegistry (t0 + minutes 1)%Z someBytes
     (mkMessage "900000000000000002" "admin#0001" None) ["cancel"] store0 guild0).1.2
    !! guild_id (msg None)
  = store0 !! guild_id (msg None).
Proof.
  apply (patchCommand_other_guilds Fixtures.HANDLERS env0 liveRegistry
           (t0 + minutes 1)%Z someBytes
           (mkMessage "900000000000000002" "admin#0001" None) ["cancel"]
           store0 guild0 (guild_id (msg None))).
  discriminate.
Defined.

Lemma patchCommand_reaches_guild_through_gates_witness :
  exists pending : PendingPatch,
    store0 !! guild_id (msg None) = Some pending
    /\ (t0 + minutes 1 - createdAt pending <= PATCH_CONFIRM_TTL_MS)%Z
    /\ code pending = submittedCode ["Apply"; "a1b2c3"].
Proof.
  destruct (proj2 (patchCommand_reaches_guild_through_gates Fixtures.HANDLERS env0
                     liveRegistry (t0 + minutes 1)%Z someBytes (msg None)
                     ["Apply"; "a1b2c3"] store0 guild0)
              2 1
              [mkResult false 2 (Some "channel.rename") (Some "id invalide") None None]
              ltac:(vm_compute; reflexivity))
    as (pending & Hp & Httl & Hcode & _).
  exists pending. by repeat split.
Defined.

(* ===================================================================== *)
(** * The helpers of the handlers *)
(* ===================================================================== *)


(** ** Lists of permissions *)







(** ** The overwrite object *)

Section OverwriteFacts.

Variable isFlag : string -> bool.




End OverwriteFacts.


(* ===================================================================== *)
(** * The summary of a plan *)
(* ===================================================================== *)



















(* ===================================================================== *)
(** * The parser of the commands *)
(* ===================================================================== *)


Lemma pushHead_words (c : ascii) (parts : list string) :
  notSpace c = true ->
  Forall (fun w => commandWord w = true) parts \/
  (exists rest, parts = EmptyString :: rest
                /\ Forall (fun w => commandWord w = true) rest) ->
  Forall (fun w => commandWord w = true) (pushHead c parts).
Proof.
  intros Hc [Hall|(rest & -> & Hall)].
  - destruct Hall as [|w ws Hw Hws]; cbn [pushHead].
    + repeat constructor. unfold commandWord. cbn. by rewrite Hc.
    + constructor; [|exact Hws]. unfold commandWord in *. cbn. by rewrite Hc, andb_true_l,
        <- (proj2 (andb_prop _ _ Hw)).
  - cbn [pushHead]. constructor; [|exact Hall].
    unfold commandWord. cbn. by rewrite Hc.
Qed.

(** The pieces of a text that whitespace does not end: words only, after
    an empty piece when whitespace begins the text. *)
Lemma splitRuns_shape (s : string) :
  endsClean s = true ->
  (truthy s = true -> Forall (fun w => commandWord w = true) (splitRuns true s))
  /\ (Forall (fun w => commandWord w = true) (splitRuns false s)
      \/ exists rest, splitRuns false s = EmptyString :: rest
                      /\ Forall (fun w => commandWord w = true) rest)
  /\ (startsClean s = true -> truthy s = true ->
      Forall (fun w => commandWord w = true) (splitRuns false s)).
Proof.
  induction s as [|c r IH]; intros Hend.
  { split; [discriminate|]. split; [right; by exists []|discriminate]. }
  assert (Hr : endsClean r = true /\ (isWhiteSpace c = true -> truthy r = true)).
  { cbn [endsClean] in Hend. destruct r as [|d r'].
    - split; [reflexivity|]. unfold notSpace in Hend. apply negb_true_iff in Hend.
      rewrite Hend. discriminate.
    - by split. }
  destruct Hr as [Hrend Hrne]. destruct (IH Hrend) as (IHt & IHf & _).
  cbn [splitRuns]. destruct (isWhiteSpace c) eqn:Hc.
  - split; [intros _; by apply IHt, Hrne|].
    split; [right; eexists; split; [reflexivity|by apply IHt, Hrne]|].
    cbn. unfold notSpace. rewrite Hc. discriminate.
  - assert (Hpush : Forall (fun w => commandWord w = true)
                      (pushHead c (splitRuns false r))).
    { apply pushHead_words; [unfold notSpace; by rewrite Hc | exact IHf]. }
    split; [by intros _|]. split; [by left | by intros _ _].
Qed.

Lemma trimEnd_endsClean (s : string) : endsClean (trimEnd s) = true.
Proof.
  induction s as [|c s IH]; [reflexivity|].
  cbn [trimEnd]. destruct (isWhiteSpace c) eqn:Hc; cbn [andb].
  - destruct (trimEnd s) as [|d r] eqn:Ht; [reflexivity|]. cbn [isEmpty endsClean].
    exact IH.
  - cbn [endsClean]. destruct (trimEnd s) as [|d r] eqn:Ht; [|exact IH].
    unfold notSpace. by rewrite Hc.
Qed.

Lemma lowerChar_facts (c : ascii) :
  lowerChar (lowerChar c) = lowerChar c
  /\ isWhiteSpace (lowerChar c) = isWhiteSpace c.
Proof. destruct c as [[|] [|] [|] [|] [|] [|] [|] [|]]; split; reflexivity. Qed.

Lemma toLowerCase_idempotent (s : string) : toLowerCase (toLowerCase s) = toLowerCase s.
Proof.
  induction s as [|c s IH]; [reflexivity|].
  cbn. f_equal; [apply lowerChar_facts | exact IH].
Qed.

Lemma toLowerCase_notSpace (s : string) :
  allChars notSpace s = true -> allChars notSpace (toLowerCase s) = true.
Proof.
  induction s as [|d s IH]; [reflexivity|].
  cbn. intros [Hd Hs]%andb_prop. rewrite (IH Hs), andb_true_r.
  unfold notSpace in *. by rewrite (proj2 (lowerChar_facts d)).
Qed.

Lemma toLowerCase_word (w : string) :
  commandWord w = true -> commandWord (toLowerCase w) = true.
Proof.
  unfold commandWord. intros [Ht Hw]%andb_prop.
  rewrite (toLowerCase_notSpace w Hw), andb_true_r. by destruct w.
Qed.

Lemma nonSpaceRun_head (s : string) :
  truthy s = true -> startsClean s = true ->
  commandWord (nonSpaceRun s).1 = true.
Proof.
  destruct s as [|c r]; [discriminate|]. intros _ Hc. cbn in Hc.
  cbn [nonSpaceRun]. unfold notSpace in Hc. pose proof Hc as Hc'.
  apply negb_true_iff in Hc'. rewrite Hc'.
  assert (Hrun : forall t, allChars notSpace (nonSpaceRun t).1 = true).
  { induction t as [|d t IHt]; [reflexivity|]. cbn [nonSpaceRun].
    destruct (isWhiteSpace d) eqn:Hd; [reflexivity|].
    destruct (nonSpaceRun t) as [w rest]. cbn in *. unfold notSpace at 1.
    by rewrite Hd. }
  specialize (Hrun r). destruct (nonSpaceRun r) as [w rest]. cbn in *.
  unfold commandWord. cbn. unfold notSpace at 1. by rewrite Hc'.
Qed.

(** X22: what the parser of the commands gives is clean, whatever the
    message: the command is one word, not empty, without whitespace and
    in lower case; no argument is empty or holds whitespace; and the raw
    arguments do not begin with whitespace. *)
Theorem parseCommandContent_clean (content prefix : string) (r : Parsed) :
  parseCommandContent content prefix = Some r ->
  commandWord (command r) = true
  /\ toLowerCase (command r) = command r
  /\ Forall (fun a => commandWord a = true) (args r)
  /\ startsClean (rawArgs r) = true.
Proof.
  unfold parseCommandContent.
  destruct (afterPrefix prefix content) as [body|]; [|discriminate].
  destruct (isEmpty (trimStart body)) eqn:He; [discriminate|].
  pose proof (nonSpaceRun_head (trimStart body)) as Hhead.
  destruct (nonSpaceRun (trimStart body)) as [m1 m2]. intros [= <-].
  cbn [command args rawArgs].
  assert (Hm1 : commandWord m1 = true).
  { apply Hhead; [unfold truthy; by rewrite He | apply trimStart_startsClean]. }
  split; [by apply toLowerCase_word|]. split; [apply toLowerCase_idempotent|].
  split; [|apply trimStart_startsClean].
  destruct (truthy (trim (trimStart m2))) eqn:Ht; [|constructor].
  apply (splitRuns_shape (trim (trimStart m2))).
  - apply trimEnd_endsClean.
  - apply trimEnd_startsClean, trimStart_startsClean.
  - exact Ht.
Qed.

Lemma parseCommandContent_clean_witness :
  commandWord "patch" = true
  /\ Forall (fun a => commandWord a = true) ["apply"; "a1b2c3"; "--allow-deletes"].
Proof.
  destruct (parseCommandContent_clean "!  PATCH apply   a1b2c3 --allow-deletes  " "!"
              (mkParsed "patch" ["apply"; "a1b2c3"; "--allow-deletes"]
                 "apply   a1b2c3 --allow-deletes  ") eq_refl)
    as (Hc & _ & Ha & _).
  split; [exact Hc | exact Ha].
Defined.








(* ===================================================================== *)
(** * Line endings, and a plan from the script to the guild *)
(* ===================================================================== *)

Lemma splitLines_nonempty (s : string) : splitLines s <> [].
Proof.
  induction s as [|c r IH]; [discriminate|].
  cbn [splitLines]. destruct (Ascii.eqb c LF); [discriminate|].
  destruct r as [|c2 r'].
  - cbn. discriminate.
  - destruct (Ascii.eqb c CR && Ascii.eqb c2 LF); [discriminate|].
    destruct (splitLines (String c2 r')); [done|discriminate].
Qed.

(** A line of text in front of a text adds itself to the first line of
    that text. *)
Lemma splitLines_line (l rest : string) :
  lineText l = true ->
  splitLines (l +:+ rest)
  = match splitLines rest with
    | h :: t => (l +:+ h) :: t
    | [] => [l]
    end.
Proof.
  induction l as [|c l IH]; intros Hl.
  { rewrite append_empty_l. pose proof (splitLines_nonempty rest) as Hne.
    by destruct (splitLines rest). }
  unfold lineText in Hl. cbn [allChars] in Hl.
  apply andb_prop in Hl as [[Hlf Hcr]%andb_prop Hl].
  unfold notChar in Hlf, Hcr. apply negb_true_iff in Hlf, Hcr.
  rewrite append_cons. cbn [splitLines]. rewrite Hlf, Hcr. cbn [andb].
  assert (Hpush : splitLines (String c (l +:+ rest))
                  = pushHead c (splitLines (l +:+ rest))).
  { cbn [splitLines]. rewrite Hlf, Hcr. cbn [andb]. by destruct (l +:+ rest). }
  replace (match l +:+ rest with
           | EmptyString => pushHead c (splitLines (l +:+ rest))
           | String _ _ => pushHead c (splitLines (l +:+ rest))
           end) with (pushHead c (splitLines (l +:+ rest)))
    by (by destruct (l +:+ rest)).
  rewrite (IH Hl). pose proof (splitLines_nonempty rest) as Hne.
  by destruct (splitLines rest).
Qed.

Lemma splitLines_LF (rest : string) : splitLines (LFs +:+ rest) = EmptyString :: splitLines rest.
Proof. reflexivity. Qed.

Lemma splitLines_CRLF (rest : string) :
  splitLines (CRLFs +:+ rest) = EmptyString :: splitLines rest.
Proof. reflexivity. Qed.

Lemma splitLines_joined (sep : string) (lines : list string) :
  (forall rest, splitLines (sep +:+ rest) = EmptyString :: splitLines rest) ->
  lines <> [] -> Forall (fun l => lineText l = true) lines ->
  splitLines (joinLinesWith sep lines) = lines.
Proof.
  intros Hsep Hne Hall. induction Hall as [|l rest Hl Hrest IH]; [done|].
  destruct rest as [|l2 rest2].
  - cbn [joinLinesWith]. rewrite <- (append_empty_r l) at 1.
    rewrite (splitLines_line l EmptyString Hl). cbn. by rewrite append_empty_r.
  - change (joinLinesWith sep (l :: l2 :: rest2))
      with (l +:+ sep +:+ joinLinesWith sep (l2 :: rest2)).
    rewrite (splitLines_line l _ Hl), Hsep, IH by discriminate.
    by rewrite append_empty_r.
Qed.

(** X24: a script reads the same with the line endings of Unix and with
    those of Windows: lines of text that hold no line feed nor carriage
    return, joined by line feeds or by carriage return and line feed,
    are split back into themselves, and the two texts parse to the same
    result. *)
Theorem parsePatchScript_line_endings (lines : list string)
    (opsMap : gmap string OpEntry) (opts : option Z) :
  lines <> [] -> Forall (fun l => lineText l = true) lines ->
  splitLines (joinLinesWith LFs lines) = lines
  /\ splitLines (joinLinesWith CRLFs lines) = lines
  /\ parsePatchScript (joinLinesWith CRLFs lines) opsMap opts
     = parsePatchScript (joinLinesWith LFs lines) opsMap opts.
Proof.
  intros Hne Hall.
  assert (H1 : splitLines (joinLinesWith LFs lines) = lines)
    by (apply splitLines_joined; [apply splitLines_LF | exact Hne | exact Hall]).
  assert (H2 : splitLines (joinLinesWith CRLFs lines) = lines)
    by (apply splitLines_joined; [apply splitLines_CRLF | exact Hne | exact Hall]).
  split; [exact H1|]. split; [exact H2|].
  unfold parsePatchScript. by rewrite H1, H2.
Qed.

Lemma parsePatchScript_line_endings_witness :
  parsePatchScript
    (joinLinesWith CRLFs ["# note"; "keep channel 42"; "rename channel 42 name=x"])
    liveRegistry None
  = parsePatchScript
      (joinLinesWith LFs ["# note"; "keep channel 42"; "rename channel 42 name=x"])
      liveRegistry None.
Proof.
  apply (parsePatchScript_line_endings
           ["# note"; "keep channel 42"; "rename channel 42 name=x"] liveRegistry None).
  - discriminate.
  - by repeat constructor.
Defined.

Lemma result_lines (la : list Action) (lr : list ActionResult) :
  Forall2 (fun a r => r_line r = a_line a) la lr ->
  List.map r_line lr = List.map a_line la.
Proof.
  induction 1 as [|a r la lr Har _ IH]; [reflexivity|].
  cbn [List.map]. by rewrite Har, IH.
Qed.

Section PipelineFacts.

Context {Guild : Type}.
Variable HANDLERS : string -> option (Handler Guild).
Variable env : Env.

(** X25: from the script to the guild.  When a script is planned without
    error and then applied with the code of the plan, within the time to
    live and with deletions allowed if the plan has some, the executor
    runs the actions of the valid lines of the script, all of them, in
    the order of the lines: there is one result per valid line, with its
    line number, and the line numbers increase. *)
Theorem plan_then_apply (opsMap : gmap string OpEntry) (planned now : Z)
    (rnd : byte * byte * byte) (message : Message) (text : string)
    (args : list string) (store : gmap string PendingPatch) (guild : Guild) :
  attachment message = Some text ->
  errors (parsePatchScript text opsMap (Some (PATCH_MAX_ACTIONS env))) = [] ->
  nth 1 args EmptyString = makeConfirmCode rnd ->
  (now - planned <= PATCH_CONFIRM_TTL_MS)%Z ->
  let acts := attempted opsMap 0 (splitLines text) in
  (existsb isDelete acts = true -> allowDeletes env args = true) ->
  let store' := (patchPlan env opsMap planned rnd message store).2 in
  let run := applyActions HANDLERS guild acts (applyCtx message) in
  (exists (ok ko : nat) (shown : list ActionResult),
      patchApply HANDLERS env now message args store' guild
      = (ReplyApplyDone ok ko shown, delete (guild_id message) store', run.2))
  /\ List.map r_line run.1 = List.map a_line acts
  /\ StronglySorted lt (List.map a_line acts).
Proof.
  intros Hatt Herr Hcode Httl acts Hallow store' run.
  pose proof (parsePatchScript_no_error_actions text opsMap (PATCH_MAX_ACTIONS env) Herr)
    as Hacts. fold acts in Hacts.
  assert (Hstore : store' = <[guild_id message :=
                      mkPending (makeConfirmCode rnd) acts planned (existsb isDelete acts)]>
                      store).
  { subst store'. unfold patchPlan. by rewrite Hatt, Herr, Hacts. }
  split; [|split].
  - rewrite Hstore.
    rewrite (patchApply_past_code HANDLERS env now message args _ guild
               (mkPending (makeConfirmCode rnd) acts planned (existsb isDelete acts))).
    + cbn [hasDeletes p_actions]. fold run.
      destruct (existsb isDelete acts) eqn:Hdel.
      * rewrite (Hallow eq_refl). cbn. by eexists _, _, _.
      * cbn. by eexists _, _, _.
    + apply lookup_insert_eq.
    + exact Httl.
    + unfold submittedCode. rewrite Hcode. apply makeConfirmCode_upper.
  - subst run. apply result_lines, applyActions_lines.
  - apply attempted_increasing.
Qed.

End PipelineFacts.

Lemma plan_then_apply_witness :
  let store' :=
    (patchPlan env0 liveRegistry t0 someBytes (msg (Some mixedScript)) ∅).2 in
  exists (ok ko : nat) (shown : list ActionResult),
    patchApply Fixtures.HANDLERS env0 (t0 + minutes 3)%Z (msg (Some mixedScript))
      ["apply"; "A1B2C3"] store' guild0
    = (ReplyApplyDone ok ko shown, delete (guild_id (msg (Some mixedScript))) store',
       (applyActions Fixtures.HANDLERS guild0
          (attempted liveRegistry 0 (splitLines mixedScript))
          (applyCtx (msg (Some mixedScript)))).2).
Proof.
  intros store'.
  destruct (plan_then_apply Fixtures.HANDLERS env0 liveRegistry t0 (t0 + minutes 3)%Z
              someBytes (msg (Some mixedScript)) mixedScript ["apply"; "A1B2C3"]
              ∅ guild0) as [Hrun _].
  - reflexivity.
  - vm_compute; reflexivity.
  - reflexivity.
  - vm_compute. discriminate.
  - vm_compute. discriminate.
  - exact Hrun.
Defined.

(** ** Ties in the summary *)












(** Handler names that are array indices come first, by increasing
    index, whatever their first use. *)
Lemma buildPlanSummary_index_keys_first :
  buildPlanSummary
    [ mkAction "a" "b" "noop" ∅ 1 EmptyString;
      mkAction "a" "b" "7" ∅ 2 EmptyString;
      mkAction "a" "b" "3" ∅ 3 EmptyString ]
  = [("3", 1); ("7", 1); ("noop", 1)].
Proof. reflexivity. Qed.
